(** * The transaction ledger and the cash vault of the bookkeeping app

    A shallow embedding of the [AppProvider] context (the ledger store):
    the list of transactions, the vault of note counts, the three
    mutations [addTransaction], [updateTransaction] and
    [deleteTransactionsByIds], and the loading of persisted data.

    Conventions of the embedding.
    - A [NoteCounts] object is a finite map from denominations to counts.
      Denominations and counts are integers: the keys of the object are
      the decimal spellings of integers, on which [parseInt(key, 10)] is
      the identity, and the counts held by the store are whole numbers.
    - A count is a JavaScript number, that is a double: the sum or the
      difference of two counts is the double nearest to it, [to_double],
      which is the sum itself up to [2 ^ 53] in magnitude and a rounded
      value beyond. Counts stay within the range of the doubles; the
      value [Infinity] is not represented.
    - [x || 0] on a count that may be absent is [count_or_0].
    - A date is represented by the instant it denotes,
      [new Date(date).getTime()], in milliseconds.
    - An exception is [None]: [JSON.parse] and [new Date] return an
      option, and so does the code of the load effect that calls them
      inside its [try].
    - React state updates are taken one call per render: the list
      [transactions] captured by a callback is the filter of the store
      the call starts from.
    - The calls to the remote mirror and the [syncStatus] indicator touch
      neither the store nor the vault and are left out. *)

From Stdlib Require Import QArith Qround Ascii.
From stdpp Require Import gmap strings list fin_maps pretty sorting.

Local Open Scope Z_scope.

(** ** Data model *)

Inductive TxType := credit | debit.
Inductive PaymentMethod := cash | upi.

Global Instance TxType_eq_dec : EqDecision TxType.
Proof. solve_decision. Defined.
Global Instance PaymentMethod_eq_dec : EqDecision PaymentMethod.
Proof. solve_decision. Defined.

(** [NoteCounts]: denomination -> count; an absent key counts as 0. *)
Abbreviation NoteCounts := (gmap Z Z).

(** [Omit<Transaction, 'id' | 'date'>], the argument of [addTransaction]. *)
Record TransactionData := {
  type : TxType;
  paymentMethod : PaymentMethod;
  amount : Q;
  location : string;
  company : string;
  person : string;
  recordedBy : string;
  notes : string;
  breakdown : NoteCounts
}.

(** [Transaction]: the data together with [id] and [date]. *)
Record Transaction := {
  id : string;
  date : Z;
  data :> TransactionData
}.

(** The two pieces of React state of the provider. *)
Record State := {
  allTransactions : list Transaction;
  vault : NoteCounts
}.

(** What the provider writes with [console.error]. *)
Abbreviation Console := (list string).

(** The user object kept under [ali_enterprises_user]; an empty string
    stands for a missing or falsy field. *)
Record User := {
  displayName : string;
  email : string
}.

(** [currentUser.displayName || currentUser.email || 'Unknown User'] *)
Definition currentUserName (u : User) : string :=
  if decide (displayName u = "") then
    if decide (email u = "") then "Unknown User" else email u
  else displayName u.

(** The test of the filter behind [transactions]: nobody logged in sees
    nothing, a user sees the records made under the same name. *)
Definition owned_by (currentUser : option User) (tx : Transaction) : Prop :=
  match currentUser with
  | None => False
  | Some u => recordedBy tx = currentUserName u
  end.

Global Instance owned_by_dec currentUser tx : Decision (owned_by currentUser tx).
Proof. destruct currentUser; simpl; apply _. Defined.

(** The list [transactions] exposed to consumers: the store filtered by
    the current user. *)
Definition visible (currentUser : option User) (all : list Transaction)
  : list Transaction :=
  filter (owned_by currentUser) all.

(** ** Vault arithmetic *)

(** [v[d] || 0] *)
Definition count_or_0 (v : NoteCounts) (d : Z) : Z := default 0 (v !! d).

(** The double nearest to a whole number, a tie going to the even
    significand: what [+] and [-] leave of the exact sum or difference of
    two doubles, as long as it is within the range of the doubles (below
    [2 ^ 1024] in magnitude). A double has a significand of 53 bits, so
    every whole number up to [2 ^ 53] in magnitude is one; beyond, the
    doubles are [ulp] apart, [ulp] being the power of two that leaves 53
    bits. *)
Definition to_double (z : Z) : Z :=
  if decide (Z.abs z <= 2 ^ 53) then z
  else
    let ulp := 2 ^ (Z.log2 (Z.abs z) - 52) in
    let q := z / ulp in
    let r := z mod ulp in
    if decide (2 * r < ulp) then q * ulp
    else if decide (ulp < 2 * r) then (q + 1) * ulp
    else if Z.even q then q * ulp else (q + 1) * ulp.

(** One turn of the loop of [addTransaction]:
    [updatedVault[denomNum] = (updatedVault[denomNum] || 0) (+|-) count]. *)
Definition apply_note (t : TxType) (denomNum count : Z) (updatedVault : NoteCounts)
  : NoteCounts :=
  match t with
  | credit =>
      <[denomNum := to_double (count_or_0 updatedVault denomNum + count)]> updatedVault
  | debit =>
      <[denomNum := to_double (count_or_0 updatedVault denomNum - count)]> updatedVault
  end.

(** One turn of the loops that take a transaction back out of the vault
    ([deleteTransactionsByIds], first phase of [updateTransaction]). *)
Definition revert_note (t : TxType) (denomNum count : Z) (updatedVault : NoteCounts)
  : NoteCounts :=
  match t with
  | credit =>
      <[denomNum := to_double (count_or_0 updatedVault denomNum - count)]> updatedVault
  | debit =>
      <[denomNum := to_double (count_or_0 updatedVault denomNum + count)]> updatedVault
  end.

(** [for (const denom in b) { ... }] with body [body denomNum b[denomNum]].
    Every body below rewrites the count of its own key only, so the order
    in which the keys come does not matter ([for_in_lookup]). *)
Definition for_in (body : Z -> Z -> NoteCounts -> NoteCounts)
    (b : NoteCounts) (v : NoteCounts) : NoteCounts :=
  map_fold body v b.

Section Ledger.

(** [DENOMINATIONS] comes from the constants module. *)
Variable DENOMINATIONS : list Z.

(** [initializeVault]: every configured denomination at 0. *)
Definition initializeVault : NoteCounts :=
  foldl (fun freshVault d => <[d := 0]> freshVault) ∅ DENOMINATIONS.

Definition initialState : State :=
  {| allTransactions := []; vault := initializeVault |}.

(** [list.sort((a, b) => new Date(b.date).getTime() - new Date(a.date).getTime())]:
    a stable sort, latest first. *)
Fixpoint insert_by_date (x : Transaction) (l : list Transaction) : list Transaction :=
  match l with
  | [] => [x]
  | y :: l' => if decide (date y < date x) then x :: y :: l'
               else y :: insert_by_date x l'
  end.

Definition sort_by_date (l : list Transaction) : list Transaction :=
  foldl (fun acc x => insert_by_date x acc) [] l.

(** *** addTransaction *)

(** The vault updater of [addTransaction]. *)
Definition add_to_vault (newTransaction : Transaction) (prevVault : NoteCounts)
  : NoteCounts :=
  if decide (paymentMethod newTransaction = cash) then
    for_in (apply_note (type newTransaction)) (breakdown newTransaction) prevVault
  else prevVault.

(** [addTransaction]; [new_id] and [now] are the identifier and the
    instant the call draws from the clock and the random generator. *)
Definition addTransaction (new_id : string) (now : Z)
    (newTransactionData : TransactionData) (st : State) : State :=
  let newTransaction := {| id := new_id; date := now; data := newTransactionData |} in
  {| allTransactions := sort_by_date (allTransactions st ++ [newTransaction]);
     vault := add_to_vault newTransaction (vault st) |}.

(** *** updateTransaction *)

(** [transactions.find(tx => tx.id === i)] *)
Definition find_by_id (i : string) (l : list Transaction) : option Transaction :=
  List.find (fun tx => bool_decide (id tx = i)) l.

(** The guard [if (DENOMINATIONS.includes(denom)) { ... }] around the body
    of the two loops of [updateTransaction]; there the count is read as
    [breakdown[denom] || 0], which is the count itself. *)
Definition if_configured (body : Z -> Z -> NoteCounts -> NoteCounts)
    (denom count : Z) (newVault : NoteCounts) : NoteCounts :=
  if decide (denom ∈ DENOMINATIONS) then body denom count newVault else newVault.

(** The vault updater of [updateTransaction]; [transactions] is the
    visible list captured by the callback. *)
Definition update_vault (transactions : list Transaction)
    (updatedTransaction : Transaction) (prevVault : NoteCounts)
  : NoteCounts * Console :=
  match find_by_id (id updatedTransaction) transactions with
  | None => (prevVault, ["Original transaction not found for vault update."])
  | Some originalTransaction =>
      let newVault := prevVault in
      (* revert the old impact *)
      let newVault :=
        if decide (paymentMethod originalTransaction = cash) then
          for_in (if_configured (revert_note (type originalTransaction)))
                 (breakdown originalTransaction) newVault
        else newVault in
      (* apply the new impact *)
      let newVault :=
        if decide (paymentMethod updatedTransaction = cash) then
          for_in (if_configured (apply_note (type updatedTransaction)))
                 (breakdown updatedTransaction) newVault
        else newVault in
      (newVault, [])
  end.

(** [tx.id === updatedTransaction.id ? updatedTransaction : tx] *)
Definition replace_by_id (updatedTransaction tx : Transaction) : Transaction :=
  if decide (id tx = id updatedTransaction) then updatedTransaction else tx.

Definition updateTransaction (currentUser : option User)
    (updatedTransaction : Transaction) (st : State) : State * Console :=
  let transactions := visible currentUser (allTransactions st) in
  let '(newVault, out) := update_vault transactions updatedTransaction (vault st) in
  ({| allTransactions :=
        sort_by_date (map (replace_by_id updatedTransaction) (allTransactions st));
      vault := newVault |}, out).

(** *** deleteTransactionsByIds *)

(** The body of [transactionsToDelete.forEach(tx => ...)]. *)
Definition remove_from_vault (updatedVault : NoteCounts) (tx : Transaction)
  : NoteCounts :=
  if decide (paymentMethod tx = cash) then
    for_in (revert_note (type tx)) (breakdown tx) updatedVault
  else updatedVault.

Definition deleteTransactionsByIds (currentUser : option User)
    (ids : list string) (st : State) : State :=
  let transactions := visible currentUser (allTransactions st) in
  let transactionsToDelete := filter (fun tx => id tx ∈ ids) transactions in
  {| allTransactions := filter (fun tx => id tx ∉ ids) (allTransactions st);
     vault := foldl remove_from_vault (vault st) transactionsToDelete |}.

(** *** Sequences of calls *)

Inductive Call :=
| Add (new_id : string) (now : Z) (newTransactionData : TransactionData)
| Update (updatedTransaction : Transaction)
| Delete (ids : list string).

(** One call, made while [currentUser] is logged in. *)
Definition perform (currentUser : option User) (c : Call) (st : State)
  : State * Console :=
  match c with
  | Add new_id now d => (addTransaction new_id now d st, [])
  | Update u => updateTransaction currentUser u st
  | Delete ids => (deleteTransactionsByIds currentUser ids st, [])
  end.

Fixpoint run (calls : list (option User * Call)) (st : State) : State * Console :=
  match calls with
  | [] => (st, [])
  | (currentUser, c) :: rest =>
      let '(st1, out1) := perform currentUser c st in
      let '(st2, out2) := run rest st1 in
      (st2, out1 ++ out2)
  end.

(** *** The vault as derived from the store *)

(** [+count] for a credit, [-count] for a debit. *)
Definition signed (t : TxType) (count : Z) : Z :=
  match t with credit => count | debit => - count end.

(** The contribution of one transaction to the count of denomination [d]:
    nothing unless it is a cash transaction. *)
Definition impact (d : Z) (tx : TransactionData) : Z :=
  if decide (paymentMethod tx = cash)
  then signed (type tx) (count_or_0 (breakdown tx) d) else 0.

(** A cash transaction of kind [t] whose breakdown is [b]. *)
Definition cash_of (t : TxType) (b : NoteCounts) (x : TransactionData) : Prop :=
  paymentMethod x = cash /\ type x = t /\ breakdown x = b.

(** Two vaults that hold the same count of every denomination, an absent
    key counting as 0. *)
Definition same_counts (v1 v2 : NoteCounts) : Prop :=
  forall d, count_or_0 v1 d = count_or_0 v2 d.

(** The signed sum over the transactions of a list. *)
Definition derived_count (d : Z) (txs : list Transaction) : Z :=
  foldr (fun (tx : Transaction) acc => impact d tx + acc) 0 txs.

(** The notes of denomination [d] that the transactions of a list move,
    in or out: whatever the order in which they are added up or taken
    back, no partial sum exceeds it in magnitude. *)
Definition turnover (d : Z) (txs : list Transaction) : Z :=
  foldr (fun (tx : Transaction) acc => Z.abs (impact d tx) + acc) 0 txs.

(** Room in the vault for the notes of a record: the count held and the
    count moved together stay within the whole numbers that the doubles
    hold one by one, so that putting the notes in or taking them out is
    exact. *)
Definition exact_on (v : NoteCounts) (tx : TransactionData) : Prop :=
  forall d, Z.abs (count_or_0 v d) + Z.abs (impact d tx) <= 2 ^ 53.

(** The calls whose targets the current user can see, with identifiers
    drawn fresh: the condition under which the vault stays the signed sum. *)
Definition in_scope (currentUser : option User) (c : Call) (st : State) : Prop :=
  match c with
  | Add new_id _ _ => new_id ∉ map id (allTransactions st)
  | Update u =>
      Forall (fun tx => id tx = id u -> owned_by currentUser tx) (allTransactions st)
  | Delete ids =>
      Forall (fun tx => id tx ∈ ids -> owned_by currentUser tx) (allTransactions st)
  end.

Fixpoint all_in_scope (calls : list (option User * Call)) (st : State) : Prop :=
  match calls with
  | [] => True
  | (currentUser, c) :: rest =>
      in_scope currentUser c st /\ all_in_scope rest (perform currentUser c st).1
  end.

Global Instance in_scope_dec currentUser c st : Decision (in_scope currentUser c st).
Proof. destruct c; simpl; apply _. Defined.

Global Instance all_in_scope_dec calls st : Decision (all_in_scope calls st).
Proof.
  revert st. induction calls as [|[currentUser c] rest IH]; intros st; simpl; apply _.
Defined.

(** Fresh identifiers alone: what every sequence of calls satisfies. *)
Fixpoint ids_fresh (calls : list (option User * Call)) (st : State) : Prop :=
  match calls with
  | [] => True
  | (currentUser, c) :: rest =>
      match c with
      | Add new_id _ _ => new_id ∉ map id (allTransactions st)
      | _ => True
      end /\ ids_fresh rest (perform currentUser c st).1
  end.

Global Instance ids_fresh_dec calls st : Decision (ids_fresh calls st).
Proof.
  revert st. induction calls as [|[currentUser c] rest IH]; intros st; simpl;
    [apply _|]. destruct c; apply _.
Defined.

(** The notes of denomination [d] that a call brings with its record. *)
Definition call_turnover (d : Z) (c : Call) : Z :=
  match c with
  | Add _ _ x => Z.abs (impact d x)
  | Update u => Z.abs (impact d u)
  | Delete _ => 0
  end.

(** The notes of denomination [d] that the records of a sequence of calls
    bring, all told. *)
Definition session_turnover (d : Z) (calls : list (option User * Call)) : Z :=
  foldr (fun uc acc => call_turnover d uc.2 + acc) 0 calls.

(** The vault holds, for each configured denomination, the signed sum
    over the store. *)
Definition vault_is_derived (st : State) : Prop :=
  forall d, d ∈ DENOMINATIONS ->
    count_or_0 (vault st) d = derived_count d (allTransactions st).

(** What an induction over the calls carries: unique identifiers, and the
    vault equal to the signed sum. *)
Definition ledger_inv (st : State) : Prop :=
  NoDup (id <$> allTransactions st) /\ vault_is_derived st.

(** Latest first. *)
Definition sorted_by_date (l : list Transaction) : Prop :=
  Sorted (fun a b => date b <= date a) l.

End Ledger.

(** ** Persisted data *)

(** A JavaScript number: a finite value, taken exactly, or one of the
    three values [isFinite] rejects. *)
Inductive jsnum := Finite (q : Q) | PosInf | NegInf | NaN.

(** A value as [JSON.parse] returns it. The fields of an object are kept
    in the order of the text; a later binding of a key overrides an
    earlier one. *)
#[warnings="-register-all"]
Inductive JSON :=
| JNull
| JBool (b : bool)
| JNum (n : jsnum)
| JStr (s : string)
| JArr (items : list JSON)
| JObj (fields : list (string * JSON)).

Fixpoint obj_get (k : string) (fields : list (string * JSON)) : option JSON :=
  match fields with
  | [] => None
  | (k', v) :: rest =>
      match obj_get k rest with
      | Some w => Some w
      | None => if decide (k' = k) then Some v else None
      end
  end.

(** [j.name], [None] for [undefined]. *)
Definition get_field (j : JSON) (name : string) : option JSON :=
  match j with
  | JObj fields => obj_get name fields
  | _ => None
  end.

(** [j[d]] for an integer [d], on an object or an array. *)
Definition get_index (j : JSON) (d : Z) : option JSON :=
  match j with
  | JObj fields => obj_get (pretty d) fields
  | JArr items => if decide (0 <= d) then items !! Z.to_nat d else None
  | _ => None
  end.

(** [x && typeof x === 'object'] *)
Definition is_object (x : option JSON) : bool :=
  match x with
  | Some (JObj _) | Some (JArr _) => true
  | _ => false
  end.

(** Truthiness of a possibly undefined value. *)
Definition truthy (x : option JSON) : bool :=
  match x with
  | None | Some JNull => false
  | Some (JBool b) => b
  | Some (JNum (Finite q)) => negb (Qeq_bool q 0)
  | Some (JNum NaN) => false
  | Some (JNum _) => true
  | Some (JStr s) => negb (bool_decide (s = ""))
  | Some (JArr _) | Some (JObj _) => true
  end.

(** [typeof count === 'number' && isFinite(count) && count >= 0], and then
    [Math.floor(count)]. *)
Definition valid_count (count : option JSON) : option Z :=
  match count with
  | Some (JNum (Finite q)) => if Qle_bool 0 q then Some (Qfloor q) else None
  | _ => None
  end.

(** [typeof x === 'string' ? x : fallback] *)
Definition string_or (x : option JSON) (fallback : string) : string :=
  match x with
  | Some (JStr s) => s
  | _ => fallback
  end.

(** [localStorage] *)
Abbreviation Storage := (gmap string string).

Section Persistence.

Variable DENOMINATIONS : list Z.

(** [JSON.parse]; [None] when it throws. *)
Variable JSON_parse : string -> option JSON.
(** [JSON.stringify] *)
Variable JSON_stringify : JSON -> string.
(** [new Date(x).getTime()]: [None] when [new Date(x)] throws, as the
    conversion of an object to a primitive can; [Some None] when the
    result is NaN. *)
Variable Date_getTime : JSON -> option (option Z).
(** The instant of [new Date()] while the data is loaded. *)
Variable now : Z.

(** The loop over [DENOMINATIONS] that rebuilds a breakdown. *)
Definition sanitize_breakdown (raw : JSON) : NoteCounts :=
  foldl (fun sanitizedBreakdown denom =>
           match valid_count (get_index raw denom) with
           | Some n => <[denom := n]> sanitizedBreakdown
           | None => sanitizedBreakdown
           end) ∅ DENOMINATIONS.

(** [(tx.date && !isNaN(new Date(tx.date).getTime())) ? tx.date
    : new Date().toISOString()], as the instant the date denotes; [None]
    when [new Date(tx.date)] throws. *)
Definition migrated_date (tx : JSON) : option Z :=
  match get_field tx "date" with
  | Some tx_date =>
      if truthy (Some tx_date) then
        time ← Date_getTime tx_date;
        Some (default now time)
      else Some now
  | None => Some now
  end.

(** The migration of one persisted entry: [Some None] discards it,
    [None] is the exception that [new Date(tx.date)] throws. *)
Definition sanitize_transaction (tx : JSON) : option (option Transaction) :=
  match tx with
  | JObj _ | JArr _ =>
      match get_field tx "id" with
      | Some (JStr tx_id) =>
          if decide (tx_id = "") then Some None else
          let m_type :=
            match get_field tx "type" with
            | Some (JStr s) => if decide (s = "debit") then debit else credit
            | _ => credit
            end in
          let m_paymentMethod :=
            match get_field tx "paymentMethod" with
            | Some (JStr s) => if decide (s = "upi") then upi else cash
            | _ => cash
            end in
          let m_amount :=
            match get_field tx "amount" with
            | Some (JNum (Finite q)) => q
            | _ => 0%Q
            end in
          m_date ← migrated_date tx;
          let sanitizedBreakdown :=
            if decide (m_paymentMethod = cash) then
              match get_field tx "breakdown" with
              | Some raw =>
                  if is_object (Some raw) then sanitize_breakdown raw else ∅
              | None => ∅
              end
            else ∅ in
          Some (Some
            {| id := tx_id;
               date := m_date;
               data := {| type := m_type;
                          paymentMethod := m_paymentMethod;
                          amount := m_amount;
                          location := string_or (get_field tx "location") "NA";
                          company := string_or (get_field tx "company") "NA";
                          person := string_or (get_field tx "person") "";
                          recordedBy := string_or (get_field tx "recordedBy") "system";
                          notes := string_or (get_field tx "notes") "";
                          breakdown := sanitizedBreakdown |} |})
      | _ => Some None
      end
  | _ => Some None
  end.

(** The loop over [DENOMINATIONS] that rebuilds the vault. *)
Definition sanitize_vault (parsedVault : JSON) : NoteCounts :=
  foldl (fun sanitizedVault denom =>
           match valid_count (get_index parsedVault denom) with
           | Some n => <[denom := n]> sanitizedVault
           | None => sanitizedVault
           end) (initializeVault DENOMINATIONS) DENOMINATIONS.

(** The body of the [try] of the load effect; [None] when it throws:
    [JSON.parse] on either blob, or [new Date] in the migration of an
    entry. The entries are migrated by [map] and the discarded ones
    taken out by [filter]. *)
Definition load_try (storage : Storage) : option State :=
  finalTransactions ←
    match storage !! "transactions" with
    | Some storedTransactions =>
        if decide (storedTransactions = "") then Some []
        else
          parsedTransactions ← JSON_parse storedTransactions;
          match parsedTransactions with
          | JArr items =>
              migrated ← mapM sanitize_transaction items;
              Some (omap (fun tx : option Transaction => tx) migrated)
          | _ => Some []
          end
    | None => Some []
    end;
  finalVault ←
    match storage !! "vault" with
    | Some storedVault =>
        if decide (storedVault = "") then Some (initializeVault DENOMINATIONS)
        else
          parsedVault ← JSON_parse storedVault;
          Some (match parsedVault with
                | JObj _ => sanitize_vault parsedVault
                | _ => initializeVault DENOMINATIONS
                end)
    | None => Some (initializeVault DENOMINATIONS)
    end;
  Some {| allTransactions := sort_by_date finalTransactions;
          vault := finalVault |}.

(** The load effect: the state it sets, the storage it leaves and what
    it writes with [console.error]. *)
Definition load (storage : Storage) : State * Storage * Console :=
  match load_try storage with
  | Some st => (st, storage, [])
  | None =>
      (initialState DENOMINATIONS,
       delete "vault" (delete "transactions" storage),
       ["CRITICAL: Corrupted localStorage data detected. Resetting application state."])
  end.

(** The vault as the object handed to [JSON.stringify]. *)
Definition vault_to_json (v : NoteCounts) : JSON :=
  JObj ((fun '(d, c) => (pretty d, JNum (Finite (inject_Z c)))) <$> map_to_list v).

(** The effect that saves the vault:
    [localStorage.setItem('vault', JSON.stringify(vault))]. *)
Definition persist_vault (v : NoteCounts) (storage : Storage) : Storage :=
  <["vault" := JSON_stringify (vault_to_json v)]> storage.

End Persistence.

(** ** A reader and a writer of JSON text

    [JSON.parse] and [JSON.stringify] belong to the platform, and the
    load effect is verified for any pair of them. The reader and the
    writer below stand in for them where a statement is run on a concrete
    text. Numbers are read exactly. *)

Module JsonText.

Definition code (c : ascii) : Z := Z.of_N (N_of_ascii c).
Definition char_of (n : Z) : ascii := ascii_of_N (Z.to_N n).

Definition first_code (s : string) : Z :=
  match s with
  | String c _ => code c
  | EmptyString => -1
  end.

Definition rest_of (s : string) : string :=
  match s with
  | String _ r => r
  | EmptyString => EmptyString
  end.

(** *** Reading *)

Definition is_ws (c : ascii) : bool :=
  bool_decide (code c ∈ [32; 9; 10; 13]).

Fixpoint skip_ws (s : string) : string :=
  match s with
  | String c r => if is_ws c then skip_ws r else s
  | EmptyString => s
  end.

Definition digit_of (c : ascii) : option Z :=
  if bool_decide (48 <= code c <= 57) then Some (code c - 48) else None.

Definition hex_of (c : ascii) : option Z :=
  if bool_decide (48 <= code c <= 57) then Some (code c - 48)
  else if bool_decide (65 <= code c <= 70) then Some (code c - 55)
  else if bool_decide (97 <= code c <= 102) then Some (code c - 87)
  else None.

(** A maximal run of digits: its value on top of [acc], its length, the
    rest of the text. *)
Fixpoint read_digits (acc : Z) (len : nat) (s : string) : Z * nat * string :=
  match s with
  | String c r =>
      match digit_of c with
      | Some n => read_digits (10 * acc + n) (S len) r
      | None => (acc, len, s)
      end
  | EmptyString => (acc, len, s)
  end.

(** [m * 10 ^ e] *)
Definition scale (m e : Z) : Q :=
  if decide (0 <= e) then inject_Z (m * 10 ^ e)
  else Qred (Qmake m (Z.to_pos (10 ^ (- e)))).

(** The fraction of a number, if any: the digits join the mantissa. *)
Definition read_fraction (int : Z) (s : string) : option (Z * Z * string) :=
  if bool_decide (first_code s = 46) then
    let '(m, len, r) := read_digits int 0 (rest_of s) in
    if decide (len = 0%nat) then None else Some (m, Z.of_nat len, r)
  else Some (int, 0, s).

(** The exponent of a number, if any. *)
Definition read_exponent (s : string) : option (Z * string) :=
  if bool_decide (first_code s ∈ [101; 69]) then
    let r := rest_of s in
    let '(sign, r) :=
      if bool_decide (first_code r = 45) then (-1, rest_of r)
      else if bool_decide (first_code r = 43) then (1, rest_of r)
      else (1, r) in
    let '(e, len, r) := read_digits 0 0 r in
    if decide (len = 0%nat) then None else Some (sign * e, r)
  else Some (0, s).

(** number = [ - ] int [ frac ] [ exp ], an int of several digits not
    starting with 0. *)
Definition read_number (s : string) : option (Q * string) :=
  let '(sign, s) :=
    if bool_decide (first_code s = 45) then (-1, rest_of s) else (1, s) in
  let '(int, len, r) := read_digits 0 0 s in
  if decide (len = 0%nat) then None
  else if bool_decide (first_code s = 48) && negb (bool_decide (len = 1%nat))
  then None
  else
    '(m, frac_len, r) ← read_fraction int r;
    '(e, r) ← read_exponent r;
    Some (scale (sign * m) (e - frac_len), r).

(** What follows a backslash, for the escapes of one character. *)
Definition unescape (e : ascii) : option ascii :=
  if bool_decide (code e ∈ [34; 92; 47]) then Some e
  else if bool_decide (code e = 98) then Some (char_of 8)
  else if bool_decide (code e = 102) then Some (char_of 12)
  else if bool_decide (code e = 110) then Some (char_of 10)
  else if bool_decide (code e = 114) then Some (char_of 13)
  else if bool_decide (code e = 116) then Some (char_of 9)
  else None.

(** The characters of a string up to its closing quote. Of the escapes
    by code point only those of one byte are read. *)
Fixpoint read_string (s : string) : option (string * string) :=
  match s with
  | EmptyString => None
  | String c r =>
      if bool_decide (code c = 34) then Some (EmptyString, r)
      else if bool_decide (code c = 92) then
        match r with
        | String e r1 =>
            if bool_decide (code e = 117) then
              match r1 with
              | String a (String b (String h (String l r2))) =>
                  match hex_of a, hex_of b, hex_of h, hex_of l with
                  | Some 0, Some 0, Some x, Some y =>
                      '(body, rest) ← read_string r2;
                      Some (String (char_of (16 * x + y)) body, rest)
                  | _, _, _, _ => None
                  end
              | _ => None
              end
            else
              x ← unescape e;
              '(body, rest) ← read_string r1;
              Some (String x body, rest)
        | EmptyString => None
        end
      else if bool_decide (code c < 32) then None
      else '(body, rest) ← read_string r; Some (String c body, rest)
  end.

(** Is the text [s] the word [w] followed by some rest? *)
Fixpoint read_word (w s : string) : option string :=
  match w, s with
  | EmptyString, _ => Some s
  | String a w', String b s' => if decide (a = b) then read_word w' s' else None
  | String _ _, EmptyString => None
  end.

Fixpoint read_value (fuel : nat) (s : string) : option (JSON * string) :=
  match fuel with
  | O => None
  | S fuel =>
      let s := skip_ws s in
      let c := first_code s in
      if bool_decide (c = 110) then r ← read_word "null" s; Some (JNull, r)
      else if bool_decide (c = 116) then r ← read_word "true" s; Some (JBool true, r)
      else if bool_decide (c = 102) then r ← read_word "false" s; Some (JBool false, r)
      else if bool_decide (c = 34) then
        '(body, r) ← read_string (rest_of s); Some (JStr body, r)
      else if bool_decide (c = 91) then
        let r := skip_ws (rest_of s) in
        if bool_decide (first_code r = 93) then Some (JArr [], rest_of r)
        else '(items, r') ← read_items fuel r; Some (JArr items, r')
      else if bool_decide (c = 123) then
        let r := skip_ws (rest_of s) in
        if bool_decide (first_code r = 125) then Some (JObj [], rest_of r)
        else '(fields, r') ← read_fields fuel r; Some (JObj fields, r')
      else '(q, r) ← read_number s; Some (JNum (Finite q), r)
  end
with read_items (fuel : nat) (s : string) : option (list JSON * string) :=
  match fuel with
  | O => None
  | S fuel =>
      '(x, r) ← read_value fuel s;
      let r := skip_ws r in
      if bool_decide (first_code r = 44) then
        '(items, r') ← read_items fuel (rest_of r); Some (x :: items, r')
      else if bool_decide (first_code r = 93) then Some ([x], rest_of r)
      else None
  end
with read_fields (fuel : nat) (s : string)
  : option (list (string * JSON) * string) :=
  match fuel with
  | O => None
  | S fuel =>
      let s := skip_ws s in
      if bool_decide (first_code s = 34) then
        '(k, r) ← read_string (rest_of s);
        let r := skip_ws r in
        if bool_decide (first_code r = 58) then
          '(x, r) ← read_value fuel (rest_of r);
          let r := skip_ws r in
          if bool_decide (first_code r = 44) then
            '(fields, r') ← read_fields fuel (rest_of r);
            Some ((k, x) :: fields, r')
          else if bool_decide (first_code r = 125) then Some ([(k, x)], rest_of r)
          else None
        else None
      else None
  end.

(** The reader: one value, and nothing but blanks after it; [None] where
    [JSON.parse] throws. *)
Definition parse (s : string) : option JSON :=
  '(x, r) ← read_value (2 * String.length s + 2) s;
  if decide (skip_ws r = "") then Some x else None.

(** *** Writing *)

Definition hex_digit (n : Z) : ascii :=
  if decide (n < 10) then char_of (48 + n) else char_of (87 + n).

Definition write_char (c : ascii) : string :=
  let escaped (e : Z) := String (char_of 92) (String (char_of e) "") in
  if bool_decide (code c ∈ [34; 92]) then escaped (code c)
  else if bool_decide (code c = 8) then escaped 98
  else if bool_decide (code c = 12) then escaped 102
  else if bool_decide (code c = 10) then escaped 110
  else if bool_decide (code c = 13) then escaped 114
  else if bool_decide (code c = 9) then escaped 116
  else if bool_decide (code c < 32) then
    escaped 117 +:+ "00"
    +:+ String (hex_digit (code c / 16)) (String (hex_digit (code c mod 16)) "")
  else String c "".

Fixpoint write_chars (s : string) : string :=
  match s with
  | EmptyString => ""
  | String c r => write_char c +:+ write_chars r
  end.

Definition write_string (s : string) : string :=
  String (char_of 34) (write_chars s +:+ String (char_of 34) "").

(** The least [k], [fuel] steps from [k] at most, with [den] a divisor of
    [10 ^ k]. *)
Fixpoint decimals (fuel : nat) (k : Z) (den : Z) : option Z :=
  if decide ((10 ^ k) mod den = 0) then Some k
  else match fuel with
       | O => None
       | S fuel => decimals fuel (k + 1) den
       end.

Fixpoint pad_zeros (n : nat) (s : string) : string :=
  match n with
  | O => s
  | S n' => if decide (String.length s <= n')%nat
            then pad_zeros n' ("0" +:+ s) else s
  end.

(** A finite number in decimal notation; a value that has none, like the
    values [isFinite] rejects, is written [null]. *)
Definition write_number (n : jsnum) : string :=
  match n with
  | Finite q =>
      let q := Qred q in
      let den := Z.pos (Qden q) in
      match decimals (Pos.size_nat (Qden q)) 0 den with
      | Some k =>
          let m := Z.abs (Qnum q) * (10 ^ k / den) in
          let sign := if decide (Qnum q < 0) then "-" else "" in
          if decide (k = 0) then sign +:+ pretty m
          else sign +:+ pretty (m / 10 ^ k) +:+ "."
               +:+ pad_zeros (Z.to_nat k) (pretty (m mod 10 ^ k))
      | None => "null"
      end
  | _ => "null"
  end.

(** The writer. *)
Fixpoint stringify (x : JSON) : string :=
  match x with
  | JNull => "null"
  | JBool true => "true"
  | JBool false => "false"
  | JNum n => write_number n
  | JStr s => write_string s
  | JArr items =>
      "[" +:+ (fix go (l : list JSON) : string :=
                 match l with
                 | [] => ""
                 | y :: l' =>
                     stringify y +:+ match l' with [] => "" | _ => "," end
                     +:+ go l'
                 end) items +:+ "]"
  | JObj fields =>
      "{" +:+ (fix go (l : list (string * JSON)) : string :=
                 match l with
                 | [] => ""
                 | (k, y) :: l' =>
                     write_string k +:+ ":" +:+ stringify y
                     +:+ match l' with [] => "" | _ => "," end +:+ go l'
                 end) fields +:+ "}"
  end.

End JsonText.

(** ** Sample data *)

(** The constants module is not part of the development; where a
    concrete configuration is called for, the notes and coins of the
    rupee serve. *)
Definition rupee_notes : list Z := [2000; 500; 200; 100; 50; 20; 10; 5; 2; 1].

(** The raw breakdown [{100: -5, 50: "x", 20: 3.7}]. *)
Definition raw_breakdown_sample : JSON :=
  JObj [("100", JNum (Finite (-5)%Q));
        ("50", JStr "x");
        ("20", JNum (Finite (37 # 10)%Q))].

(** [new Date(x)] first converts an object to a primitive, and throws a
    [TypeError] when neither [valueOf] nor [toString] gives one. No parsed
    value is callable: the conversion of a parsed object fails when it
    has a field [toString] of its own, and that of a parsed array, which
    joins the conversions of its elements, when that of an element does. *)
Fixpoint conversion_throws (x : JSON) : bool :=
  match x with
  | JObj fields => bool_decide (is_Some (obj_get "toString" fields))
  | JArr items => existsb conversion_throws items
  | _ => false
  end.

(** A reading of dates that knows epoch milliseconds only. *)
Definition epoch_millis (x : JSON) : option (option Z) :=
  if conversion_throws x then None
  else match x with
       | JNum (Finite q) => Some (Some (Qfloor q))
       | _ => Some None
       end.

Definition ali : User := {| displayName := "Ali"; email := "ali@example.com" |}.
Definition bob : User := {| displayName := ""; email := "bob@example.com" |}.

(** A cash entry of one note of 500, recorded by [who]. *)
Definition one_note_of_500 (t : TxType) (who : string) : TransactionData :=
  {| type := t; paymentMethod := cash; amount := 500%Q;
     location := "NA"; company := "NA"; person := "";
     recordedBy := who; notes := ""; breakdown := {[500 := 1]} |}.

(** The store after Ali has recorded one credit of a note of 500. *)
Definition after_one_credit : State :=
  addTransaction "txn_1" 1000 (one_note_of_500 credit "Ali") (initialState rupee_notes).

(** The record of that credit, as the store holds it. *)
Definition the_credit : Transaction :=
  {| id := "txn_1"; date := 1000; data := one_note_of_500 credit "Ali" |}.

(** A session of Ali alone: a credit, a debit, the credit turned into a
    debit, the first debit deleted. *)
Definition session_of_ali : list (option User * Call) :=
  [(Some ali, Add "txn_1" 1000 (one_note_of_500 credit "Ali"));
   (Some ali, Add "txn_2" 2000 (one_note_of_500 debit "Ali"));
   (Some ali, Update {| id := "txn_1"; date := 1000;
                        data := one_note_of_500 debit "Ali" |});
   (Some ali, Delete ["txn_2"])].

(** Ali records a credit; Bob, logged in on the same device, deletes it
    by its identifier. *)
Definition delete_by_another_user : list (option User * Call) :=
  [(Some ali, Add "txn_1" 1000 (one_note_of_500 credit "Ali"));
   (Some bob, Delete ["txn_1"])].

(** A persisted entry with the raw breakdown above. *)
Definition raw_transaction_sample : JSON :=
  JObj [("id", JStr "txn_1");
        ("type", JStr "credit");
        ("paymentMethod", JStr "cash");
        ("amount", JNum (Finite 500%Q));
        ("date", JNum (Finite 1000%Q));
        ("breakdown", raw_breakdown_sample)].

(** A storage whose transaction blob is not JSON, next to a vault blob
    that is. *)
Definition corrupted_storage : Storage :=
  <["transactions" := "not json"]>
    (persist_vault JsonText.stringify {[500 := 2]} ∅).

(** ** Sessions of one user *)

(** A call whose record, if it carries one, is recorded under [name]. *)
Definition own_call (name : string) (c : Call) : Prop :=
  match c with
  | Add _ _ x => recordedBy x = name
  | Update u => recordedBy u = name
  | Delete _ => True
  end.

(** Calls made by [user] alone, who records under the name the filter
    knows him by. *)
Definition session_of (user : User) (calls : list (option User * Call)) : Prop :=
  Forall (fun uc => uc.1 = Some user /\ own_call (currentUserName user) uc.2) calls.

(** A call that carries no cash record. *)
Definition upi_call (c : Call) : Prop :=
  match c with
  | Add _ _ x => paymentMethod x = upi
  | Update u => paymentMethod u = upi
  | Delete _ => True
  end.

(** ** Saving the store *)

(** The identifier under which the migration keeps a persisted entry:
    the entry is kept when its [id] is a string that is not empty. *)
Definition raw_id (tx : JSON) : option string :=
  match get_field tx "id" with
  | Some (JStr i) => if decide (i = "") then None else Some i
  | _ => None
  end.

(** An entry on whose date the migration throws: the entry is kept for
    its [id], its [date] is truthy, and [new Date] throws on it. *)
Definition date_throws (Date_getTime : JSON -> option (option Z)) (tx : JSON)
  : Prop :=
  match raw_id tx, get_field tx "date" with
  | Some _, Some tx_date => truthy (Some tx_date) = true /\ Date_getTime tx_date = None
  | _, _ => False
  end.

Global Instance date_throws_dec Date_getTime tx : Decision (date_throws Date_getTime tx).
Proof.
  unfold date_throws. destruct (raw_id tx), (get_field tx "date"); apply _.
Defined.

(** A transaction blob that the load effect reads and migrates without
    an exception: absent, empty, or parsed to a value none of whose
    entries has a date that throws. *)
Definition transactions_readable (JSON_parse : string -> option JSON)
    (Date_getTime : JSON -> option (option Z)) (storage : Storage) : Prop :=
  match storage !! "transactions" with
  | Some s =>
      s = ""
      \/ exists parsed,
          JSON_parse s = Some parsed
          /\ match parsed with
             | JArr items => Forall (fun tx => ~ date_throws Date_getTime tx) items
             | _ => True
             end
  | None => True
  end.

(** A blob that the load effect reads without [JSON.parse] throwing:
    absent, empty, or parsed. *)
Definition blob_readable (JSON_parse : string -> option JSON)
    (storage : Storage) (key : string) : Prop :=
  match storage !! key with
  | Some s => s = "" \/ is_Some (JSON_parse s)
  | None => True
  end.

Section Saving.

Variable DENOMINATIONS : list Z.
Variable JSON_parse : string -> option JSON.
Variable JSON_stringify : JSON -> string.

(** The value of the [date] field of a record whose date denotes the
    instant [t]: the string the record carries. *)
Variable date_json : Z -> JSON.

(** A record as the sanitizer leaves it: a non-empty identifier, and a
    breakdown of configured denominations with counts that are not
    negative, empty unless the record is cash. *)
Definition well_formed (tx : Transaction) : Prop :=
  id tx <> ""
  /\ (forall d c, breakdown tx !! d = Some c -> d ∈ DENOMINATIONS /\ 0 <= c)
  /\ (paymentMethod tx = upi -> breakdown tx = ∅).

(** A vault as the sanitizer leaves it: a count that is not negative for
    each configured denomination, and no other key. *)
Definition vault_well_formed (v : NoteCounts) : Prop :=
  (forall d, is_Some (v !! d) <-> d ∈ DENOMINATIONS)
  /\ (forall d c, v !! d = Some c -> 0 <= c).

Definition type_to_json (t : TxType) : JSON :=
  JStr (match t with credit => "credit" | debit => "debit" end).

Definition paymentMethod_to_json (p : PaymentMethod) : JSON :=
  JStr (match p with cash => "cash" | upi => "upi" end).

(** The fields of a record, as [JSON.stringify] finds them: the data,
    then [id] and [date]. *)
Definition transaction_fields (tx : Transaction) : list (string * JSON) :=
  [("type", type_to_json (type tx));
   ("paymentMethod", paymentMethod_to_json (paymentMethod tx));
   ("amount", JNum (Finite (amount tx)));
   ("location", JStr (location tx));
   ("company", JStr (company tx));
   ("person", JStr (person tx));
   ("recordedBy", JStr (recordedBy tx));
   ("notes", JStr (notes tx));
   ("breakdown", vault_to_json (breakdown tx));
   ("id", JStr (id tx));
   ("date", date_json (date tx))].

Definition transaction_to_json (tx : Transaction) : JSON :=
  JObj (transaction_fields tx).

(** The effect that saves the list:
    [localStorage.setItem('transactions', JSON.stringify(allTransactions))]. *)
Definition persist_transactions (txs : list Transaction) (storage : Storage)
  : Storage :=
  <["transactions" := JSON_stringify (JArr (transaction_to_json <$> txs))]> storage.

(** The two save effects, after a change of both pieces of state. *)
Definition persist (st : State) (storage : Storage) : Storage :=
  persist_vault JSON_stringify (vault st)
    (persist_transactions (allTransactions st) storage).

(** The text written for [x] is not empty and is read back as [x]. *)
Definition reads_back (x : JSON) : Prop :=
  JSON_stringify x <> "" /\ JSON_parse (JSON_stringify x) = Some x.

End Saving.

(** ** The report of a company

    The data behind [ReportPage]: the transactions of one company, oldest
    first, their credits grouped by customer and their debits. Amounts
    are added exactly. *)

(** [s || fallback] on strings. *)
Definition or_else (s fallback : string) : string :=
  if decide (s = "") then fallback else s.

(** [list.sort((a, b) => new Date(a.date).getTime() - new Date(b.date).getTime())]:
    a stable sort, oldest first. *)
Fixpoint insert_oldest_first (x : Transaction) (l : list Transaction)
  : list Transaction :=
  match l with
  | [] => [x]
  | y :: l' => if decide (date x < date y) then x :: y :: l'
               else y :: insert_oldest_first x l'
  end.

Definition sort_oldest_first (l : list Transaction) : list Transaction :=
  foldl (fun acc x => insert_oldest_first x acc) [] l.

(** [companyTransactions]: the visible transactions of the company, a
    record without company counting under [NA]. *)
Definition companyTransactions (transactions : list Transaction)
    (decodedCompanyName : string) : list Transaction :=
  sort_oldest_first
    (filter (fun tx : Transaction => or_else (company tx) "NA" = decodedCompanyName)
       transactions).

(** What a call returns, or the [TypeError] it throws. *)
Inductive Outcome (A : Type) :=
| Returns (a : A)
| TypeError.
Arguments Returns {A} a.
Arguments TypeError {A}.

(** The names every object inherits from [Object.prototype]: under each
    of them [acc[name]] is truthy on the empty object and has no [push]. *)
Definition Object_prototype_names : list string :=
  ["constructor"; "__defineGetter__"; "__defineSetter__"; "hasOwnProperty";
   "__lookupGetter__"; "__lookupSetter__"; "isPrototypeOf";
   "propertyIsEnumerable"; "toString"; "valueOf"; "__proto__";
   "toLocaleString"].

(** The own properties of [creditsByPerson], in the order they were
    created. *)
Abbreviation Groups := (list (string * list Transaction)).

(** [acc[personName].push(tx)] on an own property; [None] when [acc] has
    no such property of its own. *)
Fixpoint push_to (personName : string) (tx : Transaction) (acc : Groups)
  : option Groups :=
  match acc with
  | [] => None
  | (k, txs) :: rest =>
      if decide (k = personName) then Some ((k, txs ++ [tx]) :: rest)
      else (fun rest' => (k, txs) :: rest') <$> push_to personName tx rest
  end.

(** One turn of the [reduce] that groups the credits: a new group is
    made when [acc[personName]] is falsy, which it is not under an
    inherited name; there [push] is not a function. *)
Definition group_step (acc : Outcome Groups) (tx : Transaction) : Outcome Groups :=
  match acc with
  | TypeError => TypeError
  | Returns acc =>
      let personName := or_else (person tx) "N/A" in
      match push_to personName tx acc with
      | Some acc' => Returns acc'
      | None =>
          if decide (personName ∈ Object_prototype_names) then TypeError
          else Returns (acc ++ [(personName, [tx])])
      end
  end.

Definition creditsByPerson (credits : list Transaction) : Outcome Groups :=
  foldl group_step (Returns []) credits.

(** The number a key stands for when it is an array index: a canonical
    decimal below [2 ^ 32 - 1]. *)
Definition array_index (k : string) : option Z :=
  let '(n, _, _) := JsonText.read_digits 0 0 k in
  if decide (pretty n = k /\ n < 4294967295) then Some n else None.

Fixpoint insert_by_index (n : Z) (g : string * list Transaction) (l : Groups)
  : Groups :=
  match l with
  | [] => [g]
  | h :: l' =>
      match array_index h.1 with
      | Some m => if decide (n < m) then g :: h :: l'
                  else h :: insert_by_index n g l'
      | None => g :: h :: l'
      end
  end.

(** [Object.entries]: the keys that are array indices first, in
    ascending order, then the others in the order they were created. *)
Definition entries (groups : Groups) : Groups :=
  foldl (fun acc g => match array_index g.1 with
                      | Some n => insert_by_index n g acc
                      | None => acc
                      end) [] groups
  ++ filter (fun g => array_index g.1 = None) groups.

(** A row of the report: [{ name, cash, upi, total }]. *)
Record Customer := {
  name : string;
  customer_cash : list Q;
  customer_upi : list Q;
  total : Q
}.

(** [txs.map(tx => tx.amount)] *)
Definition amounts (txs : list Transaction) : list Q :=
  (fun tx : Transaction => amount tx) <$> txs.

(** [txs.reduce((sum, tx) => sum + tx.amount, 0)] *)
Definition sum_amounts (txs : list Transaction) : Q :=
  foldl (fun sum (tx : Transaction) => (sum + amount tx)%Q) 0%Q txs.

Definition customer_of (entry : string * list Transaction) : Customer :=
  let '(name, txs) := entry in
  {| name := name;
     customer_cash :=
       amounts (filter (fun tx : Transaction => paymentMethod tx = cash) txs);
     customer_upi :=
       amounts (filter (fun tx : Transaction => paymentMethod tx = upi) txs);
     total := sum_amounts txs |}.

Record ReportData := {
  customers : list Customer;
  debitAmounts : list Q;
  totalCredit : Q;
  totalDebit : Q;
  closingBalance : Q
}.

(** [reportData]: [None] is the [null] of a company without
    transactions. *)
Definition reportData (companyTransactions : list Transaction)
  : Outcome (option ReportData) :=
  match companyTransactions with
  | [] => Returns None
  | _ =>
      let credits :=
        filter (fun tx : Transaction => type tx = credit) companyTransactions in
      let debits :=
        filter (fun tx : Transaction => type tx = debit) companyTransactions in
      match creditsByPerson credits with
      | TypeError => TypeError
      | Returns groups =>
          let customers := customer_of <$> entries groups in
          let debitAmounts := amounts debits in
          let totalCredit := sum_amounts credits in
          let totalDebit := foldl Qplus 0%Q debitAmounts in
          Returns (Some {| customers := customers;
                           debitAmounts := debitAmounts;
                           totalCredit := totalCredit;
                           totalDebit := totalDebit;
                           closingBalance := (totalCredit - totalDebit)%Q |})
      end
  end.

(** The name a credit is reported under: [tx.person || 'N/A']. *)
Definition customer_name (tx : Transaction) : string :=
  or_else (person tx) "N/A".

(** Oldest first. *)
Definition sorted_oldest_first (l : list Transaction) : Prop :=
  Sorted (fun a b => date a <= date b) l.

(** The sum of a list of amounts. *)
Definition sum_Q (l : list Q) : Q := foldr Qplus 0%Q l.

(** [+amount] for a credit, [-amount] for a debit. *)
Definition signed_amount (tx : Transaction) : Q :=
  match type tx with
  | credit => amount tx
  | debit => (- amount tx)%Q
  end.

(** Groups that sort the credits by customer: one group for each name
    borne by a credit, holding the credits of that name in their order,
    and no group under an inherited name. *)
Definition grouped (credits : list Transaction) (groups : Groups) : Prop :=
  NoDup groups.*1
  /\ (forall k txs, (k, txs) ∈ groups ->
        (k ∉ Object_prototype_names) /\ txs <> []
        /\ txs = filter (fun tx => customer_name tx = k) credits)
  /\ (forall tx, tx ∈ credits -> customer_name tx ∈ groups.*1).

(** ** More sample data *)

(** Dates saved as epoch milliseconds, which [epoch_millis] reads. *)
Definition date_as_number (t : Z) : JSON := JNum (Finite (inject_Z t)).

(** The credit of Ali turned into a debit of the same note. *)
Definition the_credit_as_debit : Transaction :=
  {| id := "txn_1"; date := 1000; data := one_note_of_500 debit "Ali" |}.

(** A UPI entry of 250 rupees recorded by [who] for [customer] of [firm]. *)
Definition upi_entry (t : TxType) (who firm customer : string) : TransactionData :=
  {| type := t; paymentMethod := upi; amount := 250%Q;
     location := "NA"; company := firm; person := customer;
     recordedBy := who; notes := ""; breakdown := ∅ |}.

(** A session without cash: two UPI credits, one edited, one deleted. *)
Definition session_without_cash : list (option User * Call) :=
  [(Some ali, Add "txn_1" 1000 (upi_entry credit "Ali" "Acme" "Zed"));
   (Some ali, Add "txn_2" 2000 (upi_entry credit "Ali" "Acme" "Yan"));
   (Some ali, Update {| id := "txn_1"; date := 1000;
                        data := upi_entry debit "Ali" "Acme" "Zed" |});
   (Some ali, Delete ["txn_2"])].

(** A cash entry of [n] notes of denomination [d], recorded by [who]. *)
Definition notes_of (d n : Z) (t : TxType) (who : string) : TransactionData :=
  {| type := t; paymentMethod := cash; amount := inject_Z (d * n);
     location := "NA"; company := "NA"; person := "";
     recordedBy := who; notes := ""; breakdown := {[d := n]} |}.



(** A session of Ali that goes past [2 ^ 53] notes of 500: a credit of
    [2 ^ 53] notes, a credit of one note, a debit of [2 ^ 53] notes. *)
Definition session_beyond_the_edge : list (option User * Call) :=
  [(Some ali, Add "txn_1" 1000 (notes_of 500 (2 ^ 53) credit "Ali"));
   (Some ali, Add "txn_2" 2000 (notes_of 500 1 credit "Ali"));
   (Some ali, Add "txn_3" 3000 (notes_of 500 (2 ^ 53) debit "Ali"))].

(** A transaction blob of two entries: one with a number for [id], one
    with a string. *)
Definition blob_with_a_bad_id : JSON :=
  JArr [JObj [("id", JNum (Finite 7%Q)); ("amount", JNum (Finite 10%Q))];
        JObj [("id", JStr "txn_1"); ("amount", JNum (Finite 10%Q))]].

Definition storage_with_a_bad_id : Storage :=
  {["transactions" := JsonText.stringify blob_with_a_bad_id]}.



(** The transactions of a company: two customers, one of them with a
    cash and a UPI credit, and a debit. *)
Definition acme_transactions : list Transaction :=
  [{| id := "txn_1"; date := 3000; data := upi_entry credit "Ali" "Acme" "Zed" |};
   {| id := "txn_2"; date := 1000; data := one_note_of_500 credit "Ali" |};
   {| id := "txn_3"; date := 2000; data := upi_entry debit "Ali" "Acme" "" |};
   {| id := "txn_4"; date := 4000; data := upi_entry credit "Ali" "Acme" "7" |};
   {| id := "txn_5"; date := 5000; data := upi_entry credit "Ali" "Acme" "Zed" |}].

(** A credit in the name of [constructor]. *)
Definition credit_of_constructor : Transaction :=
  {| id := "txn_1"; date := 1000;
     data := upi_entry credit "Ali" "Acme" "constructor" |}.

(** * Properties *)

(** ** The loops over a breakdown *)

Section VaultFacts.

Implicit Types (v b : NoteCounts) (d k c : Z) (t : TxType).

Lemma signed_0 t : signed t 0 = 0.
Proof. by destruct t. Qed.

Lemma abs_signed t c : Z.abs (signed t c) = Z.abs c.
Proof. destruct t; simpl; lia. Qed.

(** Up to [2 ^ 53] in magnitude a whole number is a double. *)
Lemma to_double_exact (z : Z) : Z.abs z <= 2 ^ 53 -> to_double z = z.
Proof. intros Hz. unfold to_double. by rewrite decide_True. Qed.

(** Both bodies add to the count of their key, and round: the signed
    count, or its opposite. *)
Lemma apply_note_shape t k c v :
  apply_note t k c v = <[k := to_double (count_or_0 v k + signed t c)]> v.
Proof. destruct t; simpl; f_equal; f_equal; lia. Qed.

Lemma revert_note_shape t k c v :
  revert_note t k c v = <[k := to_double (count_or_0 v k + - signed t c)]> v.
Proof. destruct t; simpl; f_equal; f_equal; lia. Qed.

(** What a loop leaves under one key, when each turn rewrites only the
    count of its own key. *)
Lemma for_in_lookup (P : Z -> Prop) `{!forall k, Decision (P k)} (g : Z -> Z) b v d :
  for_in (fun k c r => if decide (P k)
                       then <[k := to_double (count_or_0 r k + g c)]> r else r) b v !! d
  = match b !! d with
    | Some c => if decide (P d) then Some (to_double (count_or_0 v d + g c)) else v !! d
    | None => v !! d
    end.
Proof.
  unfold for_in.
  apply (map_fold_weak_ind (fun r m =>
           r !! d = match m !! d with
                    | Some c => if decide (P d)
                                then Some (to_double (count_or_0 v d + g c)) else v !! d
                    | None => v !! d
                    end)).
  - by rewrite lookup_empty.
  - intros i x m r Hi IH. destruct (decide (i = d)) as [->|Hne].
    + rewrite Hi in IH. rewrite lookup_insert_eq.
      destruct (decide (P d)); [|done].
      rewrite lookup_insert_eq. unfold count_or_0. by rewrite IH.
    + rewrite (lookup_insert_ne m) by done.
      destruct (decide (P i)); [|done]. by rewrite lookup_insert_ne.
Qed.

Lemma for_in_ext (f g : Z -> Z -> NoteCounts -> NoteCounts) b v :
  (forall k c r, f k c r = g k c r) -> for_in f b v = for_in g b v.
Proof.
  intros Hfg. unfold for_in. rewrite !map_fold_foldr.
  apply foldr_ext; [|done..]. intros [k c] r. apply Hfg.
Qed.

(** The same, for a loop guarded by a test on the key. *)
Lemma for_in_guarded_lookup (P : Z -> Prop) `{!forall k, Decision (P k)}
    (body : Z -> Z -> NoteCounts -> NoteCounts) (g : Z -> Z) b v d :
  (forall k c r, body k c r = <[k := to_double (count_or_0 r k + g c)]> r) ->
  for_in (fun k c r => if decide (P k) then body k c r else r) b v !! d
  = match b !! d with
    | Some c => if decide (P d) then Some (to_double (count_or_0 v d + g c)) else v !! d
    | None => v !! d
    end.
Proof.
  intros Hbody. rewrite <- (for_in_lookup P g).
  f_equal. apply for_in_ext. intros k c r. by rewrite Hbody.
Qed.

Lemma for_in_plain_lookup (body : Z -> Z -> NoteCounts -> NoteCounts) (g : Z -> Z) b v d :
  (forall k c r, body k c r = <[k := to_double (count_or_0 r k + g c)]> r) ->
  for_in body b v !! d
  = match b !! d with
    | Some c => Some (to_double (count_or_0 v d + g c))
    | None => v !! d
    end.
Proof.
  intros Hbody.
  rewrite (for_in_ext body (fun k c r => if decide True then body k c r else r)).
  - rewrite (for_in_guarded_lookup (fun _ => True) body g) by done.
    destruct (b !! d); [|done]. by destruct (decide True).
  - intros k c r. by destruct (decide True).
Qed.

Lemma for_in_apply_lookup t b v d :
  for_in (apply_note t) b v !! d
  = match b !! d with
    | Some c => Some (to_double (count_or_0 v d + signed t c))
    | None => v !! d
    end.
Proof. apply (for_in_plain_lookup _ (signed t)), apply_note_shape. Qed.

Lemma for_in_revert_lookup t b v d :
  for_in (revert_note t) b v !! d
  = match b !! d with
    | Some c => Some (to_double (count_or_0 v d + - signed t c))
    | None => v !! d
    end.
Proof.
  apply (for_in_plain_lookup _ (fun c => - signed t c)), revert_note_shape.
Qed.

(** The loops are exact as long as the count they leave is within
    [2 ^ 53] in magnitude. *)
Lemma for_in_apply_count t b v d :
  Z.abs (count_or_0 v d + signed t (count_or_0 b d)) <= 2 ^ 53 ->
  count_or_0 (for_in (apply_note t) b v) d
  = count_or_0 v d + signed t (count_or_0 b d).
Proof.
  unfold count_or_0 at 3. rewrite for_in_apply_lookup.
  unfold count_or_0. destruct (b !! d); simpl.
  - apply to_double_exact.
  - intros _. rewrite signed_0. lia.
Qed.

Lemma for_in_revert_count t b v d :
  Z.abs (count_or_0 v d - signed t (count_or_0 b d)) <= 2 ^ 53 ->
  count_or_0 (for_in (revert_note t) b v) d
  = count_or_0 v d - signed t (count_or_0 b d).
Proof.
  unfold count_or_0 at 3. rewrite for_in_revert_lookup.
  unfold count_or_0. destruct (b !! d); simpl.
  - intros Hz. rewrite to_double_exact; [lia|].
    by replace (default 0 (v !! d) + - signed t z)
      with (default 0 (v !! d) - signed t z) by lia.
  - intros _. rewrite signed_0. lia.
Qed.

Section Configured.

Variable DENOMINATIONS : list Z.

Lemma for_in_configured_apply_lookup t b v d :
  for_in (if_configured DENOMINATIONS (apply_note t)) b v !! d
  = match b !! d with
    | Some c => if decide (d ∈ DENOMINATIONS)
                then Some (to_double (count_or_0 v d + signed t c)) else v !! d
    | None => v !! d
    end.
Proof.
  unfold if_configured.
  by rewrite (for_in_guarded_lookup (fun k => k ∈ DENOMINATIONS) (apply_note t)
                (signed t) b v d (apply_note_shape t)).
Qed.

Lemma for_in_configured_revert_lookup t b v d :
  for_in (if_configured DENOMINATIONS (revert_note t)) b v !! d
  = match b !! d with
    | Some c => if decide (d ∈ DENOMINATIONS)
                then Some (to_double (count_or_0 v d + - signed t c)) else v !! d
    | None => v !! d
    end.
Proof.
  unfold if_configured.
  by rewrite (for_in_guarded_lookup (fun k => k ∈ DENOMINATIONS) (revert_note t)
                (fun c => - signed t c) b v d (revert_note_shape t)).
Qed.

(** [initializeVault] holds exactly the configured denominations, at 0. *)
Lemma initializeVault_lookup d :
  initializeVault DENOMINATIONS !! d
  = if decide (d ∈ DENOMINATIONS) then Some 0 else None.
Proof.
  unfold initializeVault.
  assert (forall l (m : NoteCounts),
    foldl (fun freshVault k => <[k := 0]> freshVault) m l !! d
    = if decide (d ∈ l) then Some 0 else m !! d) as Hgen.
  { induction l as [|k l IH]; intros m.
    - destruct (decide (d ∈ [])) as [Hin|_]; [by apply elem_of_nil in Hin|done].
    - simpl. rewrite IH.
      destruct (decide (d ∈ l)) as [Hl|Hl], (decide (d ∈ k :: l)) as [Hkl|Hkl];
        try done.
      + exfalso. apply Hkl. by apply list_elem_of_further.
      + apply elem_of_cons in Hkl as [->|?]; [|done]. apply lookup_insert_eq.
      + apply lookup_insert_ne. intros ->. apply Hkl, list_elem_of_here. }
  rewrite Hgen. by rewrite lookup_empty.
Qed.

Lemma initializeVault_count d : count_or_0 (initializeVault DENOMINATIONS) d = 0.
Proof.
  unfold count_or_0. rewrite initializeVault_lookup. by destruct (decide _).
Qed.

End Configured.

End VaultFacts.

(** ** Sorting by date *)

Section SortFacts.

Implicit Types (l : list Transaction) (x tx : Transaction).

Lemma insert_by_date_perm x l : insert_by_date x l ≡ₚ x :: l.
Proof.
  induction l as [|y l IH]; simpl; [done|].
  destruct (decide (date y < date x)); [done|].
  rewrite IH. apply Permutation_swap.
Qed.

Lemma sort_by_date_perm l : sort_by_date l ≡ₚ l.
Proof.
  unfold sort_by_date.
  assert (forall acc, foldl (fun acc x => insert_by_date x acc) acc l ≡ₚ acc ++ l) as H.
  { induction l as [|x l IH]; intros acc; simpl.
    - by rewrite app_nil_r.
    - rewrite IH, insert_by_date_perm. simpl. apply Permutation_middle. }
  apply H.
Qed.

Lemma elem_of_sort_by_date tx l : tx ∈ sort_by_date l <-> tx ∈ l.
Proof. by rewrite sort_by_date_perm. Qed.

Abbreviation later_first := (fun a b : Transaction => date b <= date a).

Lemma insert_by_date_sorted x l :
  StronglySorted later_first l -> StronglySorted later_first (insert_by_date x l).
Proof.
  induction 1 as [|y l Hl IH Hy]; simpl.
  - repeat constructor.
  - destruct (decide (date y < date x)) as [Hlt|Hge].
    + constructor; [by constructor|].
      constructor; [lia|].
      eapply Forall_impl; [exact Hy|]. simpl. intros z Hz. lia.
    + constructor; [done|].
      rewrite insert_by_date_perm. constructor; [lia|done].
Qed.

Lemma sort_by_date_strongly_sorted l : StronglySorted later_first (sort_by_date l).
Proof.
  unfold sort_by_date.
  assert (forall acc, StronglySorted later_first acc ->
            StronglySorted later_first
              (foldl (fun acc x => insert_by_date x acc) acc l)) as H.
  { induction l as [|x l IH]; intros acc Hacc; simpl; [done|].
    by apply IH, insert_by_date_sorted. }
  apply H. constructor.
Qed.

Lemma sorted_by_date_strongly l :
  sorted_by_date l <-> StronglySorted later_first l.
Proof.
  split.
  - apply Sorted_StronglySorted. intros a b c ??. lia.
  - apply StronglySorted_Sorted.
Qed.

Lemma sort_by_date_sorted l : sorted_by_date (sort_by_date l).
Proof. apply sorted_by_date_strongly, sort_by_date_strongly_sorted. Qed.

Lemma filter_sorted (P : Transaction -> Prop) `{!forall tx, Decision (P tx)} l :
  sorted_by_date l -> sorted_by_date (filter P l).
Proof.
  rewrite !sorted_by_date_strongly.
  induction 1 as [|y l Hl IH Hy]; [constructor|].
  rewrite filter_cons. destruct (decide (P y)); [|done].
  constructor; [done|].
  rewrite Forall_forall in Hy |- *. intros z [_ Hz]%list_elem_of_filter. by apply Hy.
Qed.

End SortFacts.

(** ** The three mutations and the vault *)

Section LedgerFacts.

Variable DENOMINATIONS : list Z.

Implicit Types (v : NoteCounts) (d : Z) (l : list Transaction)
  (tx u : Transaction) (st : State).

Lemma abs_impact_count d (x : TransactionData) :
  paymentMethod x = cash -> Z.abs (impact d x) = Z.abs (count_or_0 (breakdown x) d).
Proof. intros Hcash. unfold impact. rewrite decide_True by done. apply abs_signed. Qed.

(** The three updaters are exact as long as the count they leave is
    within [2 ^ 53] in magnitude. *)
Lemma add_to_vault_count tx v d :
  Z.abs (count_or_0 v d + impact d tx) <= 2 ^ 53 ->
  count_or_0 (add_to_vault tx v) d = count_or_0 v d + impact d tx.
Proof.
  unfold add_to_vault, impact. destruct (decide (paymentMethod tx = cash)).
  - apply for_in_apply_count.
  - lia.
Qed.

Lemma remove_from_vault_count v tx d :
  Z.abs (count_or_0 v d - impact d tx) <= 2 ^ 53 ->
  count_or_0 (remove_from_vault v tx) d = count_or_0 v d - impact d tx.
Proof.
  unfold remove_from_vault, impact. destruct (decide (paymentMethod tx = cash)).
  - apply for_in_revert_count.
  - lia.
Qed.

(** Taking a list of records out of the vault is exact when the vault has
    room for every part of the list. *)
Lemma foldl_remove_from_vault_count l v d :
  (forall p, sublist p l -> Z.abs (count_or_0 v d - derived_count d p) <= 2 ^ 53) ->
  count_or_0 (foldl remove_from_vault v l) d = count_or_0 v d - derived_count d l.
Proof.
  revert v. induction l as [|tx l IH]; intros v Hroom; simpl; [lia|].
  assert (count_or_0 (remove_from_vault v tx) d = count_or_0 v d - impact d tx)
    as Hfirst.
  { apply remove_from_vault_count.
    specialize (Hroom [tx] (sublist_skip _ _ _ (sublist_nil_l l))).
    simpl in Hroom. by replace (count_or_0 v d - impact d tx)
      with (count_or_0 v d - (impact d tx + 0)) by lia. }
  rewrite IH.
  - rewrite Hfirst. lia.
  - intros p Hp. rewrite Hfirst.
    specialize (Hroom (tx :: p) (sublist_skip _ _ _ Hp)). simpl in Hroom.
    by replace (count_or_0 v d - impact d tx - derived_count d p)
      with (count_or_0 v d - (impact d tx + derived_count d p)) by lia.
Qed.

Lemma for_in_configured_apply_count t (b : NoteCounts) v d :
  Z.abs (count_or_0 v d
         + (if decide (d ∈ DENOMINATIONS) then signed t (count_or_0 b d) else 0))
    <= 2 ^ 53 ->
  count_or_0 (for_in (if_configured DENOMINATIONS (apply_note t)) b v) d
  = count_or_0 v d
    + (if decide (d ∈ DENOMINATIONS) then signed t (count_or_0 b d) else 0).
Proof.
  unfold count_or_0 at 3. rewrite for_in_configured_apply_lookup.
  unfold count_or_0. destruct (b !! d), (decide (d ∈ DENOMINATIONS)); simpl;
    rewrite ?signed_0; intros Hz; rewrite ?to_double_exact; done || lia.
Qed.

Lemma for_in_configured_revert_count t (b : NoteCounts) v d :
  Z.abs (count_or_0 v d
         - (if decide (d ∈ DENOMINATIONS) then signed t (count_or_0 b d) else 0))
    <= 2 ^ 53 ->
  count_or_0 (for_in (if_configured DENOMINATIONS (revert_note t)) b v) d
  = count_or_0 v d
    - (if decide (d ∈ DENOMINATIONS) then signed t (count_or_0 b d) else 0).
Proof.
  unfold count_or_0 at 3. rewrite for_in_configured_revert_lookup.
  unfold count_or_0. destruct (b !! d) as [c|], (decide (d ∈ DENOMINATIONS)); simpl;
    rewrite ?signed_0; intros Hz; try lia.
  rewrite to_double_exact; [lia|].
  by replace (default 0 (v !! d) + - signed t c)
    with (default 0 (v !! d) - signed t c) by lia.
Qed.

(** The vault updater of [updateTransaction] when the original is found:
    exact when the vault has room for the count without the original and
    for the count with the new record in its place. *)
Lemma update_vault_found_count l u o v d :
  find_by_id (id u) l = Some o ->
  Z.abs (count_or_0 v d - (if decide (d ∈ DENOMINATIONS) then impact d o else 0))
    <= 2 ^ 53 ->
  Z.abs (count_or_0 v d
         + (if decide (d ∈ DENOMINATIONS) then impact d u - impact d o else 0))
    <= 2 ^ 53 ->
  count_or_0 (update_vault DENOMINATIONS l u v).1 d
  = count_or_0 v d
    + (if decide (d ∈ DENOMINATIONS) then impact d u - impact d o else 0).
Proof.
  intros Hfind Hwithout Hwith. unfold update_vault. rewrite Hfind. simpl.
  set (reverted := if decide (paymentMethod o = cash)
                   then for_in (if_configured DENOMINATIONS (revert_note (type o)))
                          (breakdown o) v
                   else v).
  assert (count_or_0 reverted d
          = count_or_0 v d
            - (if decide (d ∈ DENOMINATIONS) then impact d o else 0)) as Hreverted.
  { unfold reverted, impact in *.
    destruct (decide (paymentMethod o = cash)).
    - by apply for_in_configured_revert_count.
    - destruct (decide (d ∈ DENOMINATIONS)); lia. }
  unfold impact in *. destruct (decide (paymentMethod u = cash)).
  - rewrite for_in_configured_apply_count; rewrite Hreverted;
      destruct (decide (d ∈ DENOMINATIONS)); lia.
  - rewrite Hreverted. destruct (decide (d ∈ DENOMINATIONS)); lia.
Qed.

Lemma update_vault_missing l u v :
  find_by_id (id u) l = None ->
  update_vault DENOMINATIONS l u v
  = (v, ["Original transaction not found for vault update."]).
Proof. intros Hfind. unfold update_vault. by rewrite Hfind. Qed.

(** [find] and unique identifiers. *)
Lemma find_by_id_None i l :
  find_by_id i l = None <-> forall tx, tx ∈ l -> id tx <> i.
Proof.
  unfold find_by_id. induction l as [|a l IH]; simpl.
  - split; [|done]. intros _ tx Htx. by apply elem_of_nil in Htx.
  - destruct (bool_decide_reflect (id a = i)) as [Heq|Hne].
    + split; [done|]. intros H. exfalso. eapply H; [apply list_elem_of_here|done].
    + rewrite IH. split.
      * intros H tx [->|Htx]%elem_of_cons; auto.
      * intros H tx Htx. apply H. by apply list_elem_of_further.
Qed.


Lemma find_by_id_elem i l tx :
  find_by_id i l = Some tx -> tx ∈ l /\ id tx = i.
Proof.
  unfold find_by_id. intros [Hin Hid]%List.find_some.
  split; [by apply list_elem_of_In|]. by apply bool_decide_eq_true in Hid.
Qed.

Lemma derived_count_perm d l1 l2 :
  l1 ≡ₚ l2 -> derived_count d l1 = derived_count d l2.
Proof. induction 1; simpl; lia. Qed.

Lemma derived_count_app d l1 l2 :
  derived_count d (l1 ++ l2) = derived_count d l1 + derived_count d l2.
Proof. induction l1 as [|tx l1 IH]; simpl; lia. Qed.

Lemma derived_count_filter_split (P : Transaction -> Prop)
    `{!forall tx, Decision (P tx)} d l :
  derived_count d l
  = derived_count d (filter P l) + derived_count d (filter (fun tx => ~ P tx) l).
Proof.
  induction l as [|tx l IH]; simpl; [done|].
  rewrite !filter_cons. destruct (decide (P tx)) as [HP|HP].
  - rewrite decide_False by tauto. simpl. lia.
  - rewrite decide_True by done. simpl. lia.
Qed.

(** The notes moved bound every partial sum. *)
Lemma turnover_nonneg d l : 0 <= turnover d l.
Proof. induction l as [|tx l IH]; simpl; lia. Qed.

Lemma turnover_perm d l1 l2 : l1 ≡ₚ l2 -> turnover d l1 = turnover d l2.
Proof. induction 1; simpl; lia. Qed.

Lemma turnover_app d l1 l2 : turnover d (l1 ++ l2) = turnover d l1 + turnover d l2.
Proof. induction l1 as [|tx l1 IH]; simpl; lia. Qed.

Lemma turnover_sublist d p l :
  sublist p l ->
  Z.abs (derived_count d l - derived_count d p) + turnover d p <= turnover d l.
Proof. induction 1; simpl in *; lia. Qed.

Lemma derived_count_within_turnover d l : Z.abs (derived_count d l) <= turnover d l.
Proof.
  pose proof (turnover_sublist d [] l (sublist_nil_l l)) as H. simpl in H. lia.
Qed.

Lemma turnover_without d (o : Transaction) l :
  o ∈ l -> Z.abs (derived_count d l - impact d o) + Z.abs (impact d o) <= turnover d l.
Proof.
  induction l as [|a l IH]; simpl.
  - by intros ?%elem_of_nil.
  - intros [->|Ho]%elem_of_cons.
    + pose proof (derived_count_within_turnover d l). lia.
    + specialize (IH Ho). lia.
Qed.

(** Taking records out of a vault that has room for all of them. *)
Lemma foldl_remove_count_room l v d :
  Z.abs (count_or_0 v d) + turnover d l <= 2 ^ 53 ->
  count_or_0 (foldl remove_from_vault v l) d = count_or_0 v d - derived_count d l.
Proof.
  intros Hroom. apply foldl_remove_from_vault_count. intros p Hp.
  pose proof (turnover_sublist d p l Hp).
  pose proof (derived_count_within_turnover d p). lia.
Qed.

End LedgerFacts.

(** ** End-to-end scenarios and algebraic laws *)

Section LedgerLaws.

Variable DENOMINATIONS : list Z.

Implicit Types (v : NoteCounts) (d : Z) (l : list Transaction)
  (tx u : Transaction) (st : State).

Lemma add_to_vault_lookup tx v d :
  paymentMethod tx = cash ->
  add_to_vault tx v !! d
  = match breakdown tx !! d with
    | Some c => Some (to_double (count_or_0 v d + signed (type tx) c))
    | None => v !! d
    end.
Proof.
  intros Hcash. unfold add_to_vault. rewrite decide_True by done.
  apply for_in_apply_lookup.
Qed.


(** C2. From the zero vault, a cash credit with breakdown {500: 1} leaves
    1 note of 500; a cash debit with the same breakdown brings the count
    back to 0; a second such debit brings it to -1: the count is not
    clamped at zero. *)
Theorem C2_vault_may_go_negative
    (id1 id2 id3 : string) (now1 now2 now3 : Z) (c d1 d2 : TransactionData) :
  cash_of credit {[500 := 1]} c ->
  cash_of debit {[500 := 1]} d1 ->
  cash_of debit {[500 := 1]} d2 ->
  let st1 := addTransaction id1 now1 c (initialState DENOMINATIONS) in
  let st2 := addTransaction id2 now2 d1 st1 in
  let st3 := addTransaction id3 now3 d2 st2 in
  vault st1 !! 500 = Some 1 /\ vault st2 !! 500 = Some 0 /\ vault st3 !! 500 = Some (-1).
Proof.
  intros (Hc1 & Hc2 & Hc3) (Hd1 & Hd2 & Hd3) (He1 & He2 & He3). simpl.
  assert (add_to_vault {| id := id1; date := now1; data := c |}
            (initializeVault DENOMINATIONS) !! 500 = Some 1) as H1.
  { rewrite add_to_vault_lookup by done. simpl. rewrite Hc3, Hc2.
    rewrite lookup_singleton_eq, initializeVault_count. done. }
  assert (add_to_vault {| id := id2; date := now2; data := d1 |}
            (add_to_vault {| id := id1; date := now1; data := c |}
               (initializeVault DENOMINATIONS)) !! 500 = Some 0) as H2.
  { rewrite add_to_vault_lookup by done. simpl. rewrite Hd3, Hd2.
    rewrite lookup_singleton_eq. unfold count_or_0. by rewrite H1. }
  split_and!; [done..|].
  rewrite add_to_vault_lookup by done. simpl. rewrite He3, He2.
  rewrite lookup_singleton_eq. unfold count_or_0. by rewrite H2.
Qed.

Lemma updateTransaction_vault cu u st :
  vault (updateTransaction DENOMINATIONS cu u st).1
  = (update_vault DENOMINATIONS (visible cu (allTransactions st)) u (vault st)).1.
Proof. unfold updateTransaction. by destruct (update_vault _ _ _ _). Qed.

Lemma updateTransaction_console cu u st :
  (updateTransaction DENOMINATIONS cu u st).2
  = (update_vault DENOMINATIONS (visible cu (allTransactions st)) u (vault st)).2.
Proof. unfold updateTransaction. by destruct (update_vault _ _ _ _). Qed.

Lemma updateTransaction_list cu u st :
  allTransactions (updateTransaction DENOMINATIONS cu u st).1
  = sort_by_date (map (replace_by_id u) (allTransactions st)).
Proof. unfold updateTransaction. by destruct (update_vault _ _ _ _). Qed.




Lemma filter_none (P : Transaction -> Prop) `{!forall tx, Decision (P tx)} l :
  (forall tx, tx ∈ l -> ~ P tx) -> filter P l = [].
Proof.
  induction l as [|a l IH]; intros Hnone; [done|].
  rewrite filter_cons_False by (apply Hnone, list_elem_of_here).
  apply IH. intros tx Htx. by apply Hnone, list_elem_of_further.
Qed.



(** C7. When no visible transaction has the id of the record passed to
    [updateTransaction], the vault is left as it was and the error is
    written to the console; the call returns all the same, and the list
    is still rewritten: if the id exists in the unfiltered store, the
    stored record is replaced by the one passed. *)
Theorem C7_update_of_hidden_id (currentUser : option User) u st :
  (forall tx, tx ∈ visible currentUser (allTransactions st) -> id tx <> id u) ->
  let result := updateTransaction DENOMINATIONS currentUser u st in
  vault result.1 = vault st
  /\ result.2 = ["Original transaction not found for vault update."]
  /\ allTransactions result.1
     = sort_by_date (map (replace_by_id u) (allTransactions st))
  /\ ((exists tx, tx ∈ allTransactions st /\ id tx = id u) ->
      u ∈ allTransactions result.1
      /\ forall tx', tx' ∈ allTransactions result.1 -> id tx' = id u -> tx' = u).
Proof.
  intros Hhidden%find_by_id_None. simpl.
  rewrite updateTransaction_vault, updateTransaction_console,
    updateTransaction_list, update_vault_missing by done.
  split_and!; [done..|]. intros (tx & Htx & Hid). split.
  - rewrite elem_of_sort_by_date. apply list_elem_of_fmap. exists tx.
    split; [|done]. unfold replace_by_id. by rewrite decide_True.
  - intros tx' Htx' Hid'. rewrite elem_of_sort_by_date in Htx'.
    apply list_elem_of_fmap in Htx' as (t & -> & _).
    unfold replace_by_id in *. by destruct (decide (id t = id u)).
Qed.

End LedgerLaws.

(** ** The vault as derived state *)

Section DerivedVault.

Variable DENOMINATIONS : list Z.

Implicit Types (v : NoteCounts) (d : Z) (l : list Transaction)
  (tx u o : Transaction) (st : State).

Lemma id_replace_by_id u tx : id (replace_by_id u tx) = id tx.
Proof. unfold replace_by_id. by destruct (decide (id tx = id u)). Qed.

Lemma ids_after_replace u l : id <$> map (replace_by_id u) l = id <$> l.
Proof.
  induction l as [|a l IH]; [done|].
  change (map (replace_by_id u) (a :: l))
    with (replace_by_id u a :: map (replace_by_id u) l).
  rewrite !fmap_cons. by rewrite id_replace_by_id, IH.
Qed.

Lemma map_replace_absent u l :
  (forall tx, tx ∈ l -> id tx <> id u) -> map (replace_by_id u) l = l.
Proof.
  induction l as [|a l IH]; intros Habs; simpl; [done|].
  rewrite IH by (intros tx Htx; by apply Habs, list_elem_of_further).
  unfold replace_by_id. rewrite decide_False; [done|].
  apply Habs, list_elem_of_here.
Qed.

Lemma derived_count_replace d u o l :
  NoDup (id <$> l) -> o ∈ l -> id o = id u ->
  derived_count d (map (replace_by_id u) l)
  = derived_count d l - impact d o + impact d u.
Proof.
  induction l as [|a l IH]; simpl.
  - intros _ Ho. by apply elem_of_nil in Ho.
  - intros [Ha Hl]%NoDup_cons [->|Ho]%elem_of_cons Hid.
    + rewrite map_replace_absent.
      * unfold replace_by_id. rewrite decide_True by done. lia.
      * intros tx Htx Heq. apply Ha. rewrite Hid, <- Heq.
        by apply list_elem_of_fmap_2.
    + rewrite IH by done. unfold replace_by_id. rewrite decide_False; [lia|].
      intros Heq. apply Ha. rewrite Heq, <- Hid. by apply list_elem_of_fmap_2.
Qed.

Lemma NoDup_ids_filter (P : Transaction -> Prop) `{!forall tx, Decision (P tx)} l :
  NoDup (id <$> l) -> NoDup (id <$> filter P l).
Proof.
  induction l as [|a l IH]; [done|]. intros [Ha Hl]%NoDup_cons.
  rewrite filter_cons. destruct (decide (P a)); [|by apply IH].
  simpl. apply NoDup_cons. split; [|by apply IH].
  intros (t & Hid & [_ Ht]%list_elem_of_filter)%list_elem_of_fmap.
  apply Ha. rewrite Hid. by apply list_elem_of_fmap_2.
Qed.

Lemma filter_visible_in_scope (P : Transaction -> Prop)
    `{!forall tx, Decision (P tx)} (currentUser : option User) l :
  Forall (fun tx => P tx -> owned_by currentUser tx) l ->
  filter P (visible currentUser l) = filter P l.
Proof.
  unfold visible. induction 1 as [|a l Ha Hl IH]; [done|].
  rewrite (filter_cons (owned_by currentUser)), (filter_cons P a l).
  destruct (decide (owned_by currentUser a)) as [Hown|Hown].
  - rewrite filter_cons. by rewrite IH.
  - rewrite decide_False by tauto. done.
Qed.

Lemma turnover_replace d u l :
  NoDup (id <$> l) ->
  turnover d (map (replace_by_id u) l) <= turnover d l + Z.abs (impact d u).
Proof.
  induction l as [|a l IH]; simpl; [lia|].
  intros [Ha Hl]%NoDup_cons. unfold replace_by_id at 1.
  destruct (decide (id a = id u)) as [Heq|Hne].
  - rewrite map_replace_absent; [lia|].
    intros tx Htx Hid. apply Ha. rewrite Heq, <- Hid. by apply list_elem_of_fmap_2.
  - specialize (IH Hl). lia.
Qed.

Lemma session_turnover_nonneg d (calls : list (option User * Call)) :
  0 <= session_turnover d calls.
Proof.
  induction calls as [|[currentUser c] rest IH]; simpl; [lia|].
  destruct c; simpl; lia.
Qed.

(** A call adds to the notes of the store at most the notes of its
    record. *)
Lemma perform_turnover (currentUser : option User) c st d :
  NoDup (id <$> allTransactions st) ->
  turnover d (allTransactions (perform DENOMINATIONS currentUser c st).1)
  <= turnover d (allTransactions st) + call_turnover d c.
Proof.
  intros Hnodup. destruct c as [new_id now x|u|ids]; simpl.
  - rewrite (turnover_perm d _ _ (sort_by_date_perm _)), turnover_app. simpl. lia.
  - rewrite updateTransaction_list, (turnover_perm d _ _ (sort_by_date_perm _)).
    by apply turnover_replace.
  - pose proof (turnover_sublist d _ _
                  (sublist_filter (fun tx => id tx ∉ ids) (allTransactions st))).
    lia.
Qed.

Lemma addTransaction_inv new_id now x st :
  new_id ∉ map id (allTransactions st) ->
  ledger_inv DENOMINATIONS st ->
  (forall d, d ∈ DENOMINATIONS ->
     turnover d (allTransactions st) + Z.abs (impact d x) <= 2 ^ 53) ->
  ledger_inv DENOMINATIONS (addTransaction new_id now x st).
Proof.
  intros Hfresh [Hnodup Hvault] Hroom. split; simpl.
  - rewrite sort_by_date_perm, fmap_app. simpl.
    apply NoDup_app. split_and!; [done| |apply NoDup_singleton].
    intros i Hi ->%list_elem_of_singleton. by apply Hfresh.
  - intros d Hd. simpl.
    pose proof (derived_count_within_turnover d (allTransactions st)).
    specialize (Hroom d Hd). specialize (Hvault d Hd).
    rewrite add_to_vault_count by (simpl; lia).
    rewrite (derived_count_perm d _ _ (sort_by_date_perm _)).
    rewrite derived_count_app, Hvault. simpl. lia.
Qed.

Lemma updateTransaction_inv (currentUser : option User) u st :
  Forall (fun tx => id tx = id u -> owned_by currentUser tx) (allTransactions st) ->
  ledger_inv DENOMINATIONS st ->
  (forall d, d ∈ DENOMINATIONS ->
     turnover d (allTransactions st) + Z.abs (impact d u) <= 2 ^ 53) ->
  ledger_inv DENOMINATIONS (updateTransaction DENOMINATIONS currentUser u st).1.
Proof.
  intros Hscope [Hnodup Hvault] Hroom. split.
  - rewrite updateTransaction_list, sort_by_date_perm. by rewrite ids_after_replace.
  - intros d Hd. specialize (Hroom d Hd). specialize (Hvault d Hd).
    rewrite updateTransaction_vault, updateTransaction_list.
    rewrite (derived_count_perm d _ _ (sort_by_date_perm _)).
    destruct (find_by_id (id u) (visible currentUser (allTransactions st)))
      as [o|] eqn:Hfind.
    + pose proof Hfind as Hfound.
      apply find_by_id_elem in Hfind as [[_ Ho]%list_elem_of_filter Hid].
      pose proof (turnover_without d o _ Ho).
      rewrite (update_vault_found_count _ _ _ o)
        by (done || rewrite decide_True by done; lia).
      rewrite decide_True by done.
      rewrite (derived_count_replace d u o) by done. lia.
    + rewrite update_vault_missing by done. simpl.
      rewrite map_replace_absent; [done|].
      intros tx Htx Hid. rewrite find_by_id_None in Hfind.
      apply (Hfind tx); [|done]. apply list_elem_of_filter. split; [|done].
      rewrite Forall_forall in Hscope. by apply Hscope.
Qed.

Lemma deleteTransactionsByIds_inv (currentUser : option User) ids st :
  Forall (fun tx => id tx ∈ ids -> owned_by currentUser tx) (allTransactions st) ->
  ledger_inv DENOMINATIONS st ->
  (forall d, d ∈ DENOMINATIONS -> turnover d (allTransactions st) <= 2 ^ 53) ->
  ledger_inv DENOMINATIONS (deleteTransactionsByIds currentUser ids st).
Proof.
  intros Hscope [Hnodup Hvault] Hroom. split; simpl.
  - by apply NoDup_ids_filter.
  - intros d Hd. simpl. specialize (Hroom d Hd). specialize (Hvault d Hd).
    rewrite filter_visible_in_scope by done.
    rewrite foldl_remove_from_vault_count.
    + rewrite Hvault.
      rewrite (derived_count_filter_split (fun tx => id tx ∈ ids) d (allTransactions st)).
      lia.
    + intros p Hp. rewrite Hvault.
      assert (sublist p (allTransactions st)) as Hsub
        by (etrans; [exact Hp|apply sublist_filter]).
      pose proof (turnover_sublist d p _ Hsub).
      pose proof (turnover_nonneg d p). lia.
Qed.

Lemma perform_inv (currentUser : option User) c st :
  in_scope currentUser c st ->
  ledger_inv DENOMINATIONS st ->
  (forall d, d ∈ DENOMINATIONS ->
     turnover d (allTransactions st) + call_turnover d c <= 2 ^ 53) ->
  ledger_inv DENOMINATIONS (perform DENOMINATIONS currentUser c st).1.
Proof.
  destruct c; simpl; intros Hscope Hinv Hroom.
  - by apply addTransaction_inv.
  - by apply updateTransaction_inv.
  - apply deleteTransactionsByIds_inv; [done..|].
    intros d Hd. specialize (Hroom d Hd). lia.
Qed.

Lemma run_state_cons (currentUser : option User) c rest st :
  (run DENOMINATIONS ((currentUser, c) :: rest) st).1
  = (run DENOMINATIONS rest (perform DENOMINATIONS currentUser c st).1).1.
Proof.
  simpl. destruct (perform _ _ _ _) as [st1 out1]. simpl.
  by destruct (run _ _ _) as [st2 out2].
Qed.

Lemma run_inv calls st :
  all_in_scope DENOMINATIONS calls st ->
  ledger_inv DENOMINATIONS st ->
  (forall d, d ∈ DENOMINATIONS ->
     turnover d (allTransactions st) + session_turnover d calls <= 2 ^ 53) ->
  ledger_inv DENOMINATIONS (run DENOMINATIONS calls st).1.
Proof.
  revert st. induction calls as [|[currentUser c] rest IH]; intros st; [done|].
  intros [Hc Hrest] Hinv Hroom. rewrite run_state_cons.
  apply IH; [done| |].
  - apply perform_inv; [done..|]. intros d Hd. specialize (Hroom d Hd).
    simpl in Hroom. pose proof (session_turnover_nonneg d rest). lia.
  - intros d Hd. specialize (Hroom d Hd). simpl in Hroom.
    pose proof (perform_turnover currentUser c st d (proj1 Hinv)). lia.
Qed.

Lemma initialState_inv : ledger_inv DENOMINATIONS (initialState DENOMINATIONS).
Proof.
  split; simpl; [constructor|]. intros d _. simpl. apply initializeVault_count.
Qed.

(** Identifiers stay unique along every sequence of calls that draws them
    fresh, whoever makes the calls and whatever they aim at; so they are
    unique in every list a user sees. *)
Lemma perform_ids_unique (currentUser : option User) c st :
  match c with
  | Add new_id _ _ => new_id ∉ map id (allTransactions st)
  | _ => True
  end ->
  NoDup (id <$> allTransactions st) ->
  NoDup (id <$> allTransactions (perform DENOMINATIONS currentUser c st).1).
Proof.
  destruct c as [new_id now x|u|ids]; simpl; intros Hfresh Hnodup.
  - rewrite sort_by_date_perm, fmap_app. simpl.
    apply NoDup_app. split_and!; [done| |apply NoDup_singleton].
    intros i Hi ->%list_elem_of_singleton. by apply Hfresh.
  - rewrite updateTransaction_list, sort_by_date_perm. by rewrite ids_after_replace.
  - by apply NoDup_ids_filter.
Qed.

Lemma run_ids_unique calls st :
  ids_fresh DENOMINATIONS calls st ->
  NoDup (id <$> allTransactions st) ->
  NoDup (id <$> allTransactions (run DENOMINATIONS calls st).1).
Proof.
  revert st. induction calls as [|[currentUser c] rest IH]; intros st; [done|].
  intros [Hc Hrest] Hnodup. rewrite run_state_cons.
  apply IH; [done|]. by apply perform_ids_unique.
Qed.

Lemma visible_ids_unique (currentUser : option User) calls :
  ids_fresh DENOMINATIONS calls (initialState DENOMINATIONS) ->
  NoDup (id <$> visible currentUser
           (allTransactions (run DENOMINATIONS calls (initialState DENOMINATIONS)).1)).
Proof.
  intros Hfresh. apply NoDup_ids_filter, run_ids_unique; [done|]. constructor.
Qed.

(** C1, as the code has it. Along every sequence of [addTransaction],
    [updateTransaction] and [deleteTransactionsByIds] calls from the empty
    store in which identifiers are drawn fresh, every update or delete
    aims only at transactions the current user can see (or at identifiers
    the store does not hold), and the notes that the records of the calls
    bring add up, for each configured denomination, to [2 ^ 53] at most
    (so that the doubles holding the counts add them exactly), the vault's
    count of every configured denomination is the signed sum, over the
    cash transactions of the store, of their breakdown counts. *)
Theorem C1_vault_is_signed_sum_in_scope calls :
  all_in_scope DENOMINATIONS calls (initialState DENOMINATIONS) ->
  (forall d, d ∈ DENOMINATIONS -> session_turnover d calls <= 2 ^ 53) ->
  vault_is_derived DENOMINATIONS (run DENOMINATIONS calls (initialState DENOMINATIONS)).1.
Proof.
  intros Hscope Hroom. apply run_inv; [done|apply initialState_inv|].
  intros d Hd. specialize (Hroom d Hd). simpl. lia.
Qed.

End DerivedVault.

(** ** Loading persisted data *)

Section ObjectFacts.

Implicit Types (k : string) (x : JSON) (fields : list (string * JSON)).

Lemma obj_get_absent k fields : k ∉ fields.*1 -> obj_get k fields = None.
Proof.
  induction fields as [|[k' v'] fields IH]; simpl; [done|].
  intros Hk. rewrite not_elem_of_cons in Hk. destruct Hk as [Hne Hk].
  rewrite IH by done. by rewrite decide_False.
Qed.

Lemma obj_get_present k x fields :
  NoDup fields.*1 -> (k, x) ∈ fields -> obj_get k fields = Some x.
Proof.
  induction fields as [|[k' v'] fields IH]; simpl.
  - intros _ Hin. by apply elem_of_nil in Hin.
  - intros [Hk' Hnodup]%NoDup_cons [Heq|Hin]%elem_of_cons.
    + injection Heq as -> ->. rewrite obj_get_absent by done.
      by rewrite decide_True.
    + by rewrite IH.
Qed.

(** Reading a count back from the object a vault is saved as. *)
Lemma get_index_vault_to_json (v : NoteCounts) (d c : Z) :
  v !! d = Some c ->
  get_index (vault_to_json v) d = Some (JNum (Finite (inject_Z c))).
Proof.
  intros Hv. simpl. apply obj_get_present.
  - assert (forall l : list (Z * Z),
              ((fun '(d, c) => (pretty d, JNum (Finite (inject_Z c)))) <$> l).*1
              = pretty <$> l.*1) as Hkeys.
    { induction l as [|[k n] l IH]; [done|]. rewrite !fmap_cons. by f_equal. }
    rewrite Hkeys. apply NoDup_fmap_2; [apply _|].
    apply NoDup_fst_map_to_list.
  - apply list_elem_of_fmap. exists (d, c). split; [done|].
    by apply elem_of_map_to_list.
Qed.

Lemma valid_count_negative (c : Z) :
  c < 0 -> valid_count (Some (JNum (Finite (inject_Z c)))) = None.
Proof.
  intros Hc. simpl. destruct (Qle_bool 0 (inject_Z c)) eqn:Hle; [|done].
  apply Qle_bool_iff in Hle. unfold Qle in Hle. simpl in Hle. lia.
Qed.

Lemma valid_count_Some (count : option JSON) (n : Z) :
  valid_count count = Some n
  <-> exists q, count = Some (JNum (Finite q)) /\ (0 <= q)%Q /\ n = Qfloor q.
Proof.
  split.
  - destruct count as [[| |[q| | |]| | |]|]; simpl; try done.
    destruct (Qle_bool 0 q) eqn:Hle; [|done].
    intros [= <-]. exists q. by rewrite <- Qle_bool_iff.
  - intros (q & -> & Hq & ->). simpl.
    apply Qle_bool_iff in Hq. by rewrite Hq.
Qed.

End ObjectFacts.

Section LoadFacts.

Variable DENOMINATIONS : list Z.

Implicit Types (d : Z) (raw : JSON).

(** A loop that writes, for each key of a list, the count found valid. *)
Lemma foldl_valid_lookup (f : Z -> option Z) (l : list Z) (m : NoteCounts) d :
  foldl (fun acc k => match f k with
                      | Some n => <[k := n]> acc
                      | None => acc
                      end) m l !! d
  = if decide (d ∈ l) then
      match f d with Some n => Some n | None => m !! d end
    else m !! d.
Proof.
  revert m. induction l as [|k l IH]; intros m.
  - destruct (decide (d ∈ [])) as [Hin|_]; [by apply elem_of_nil in Hin|done].
  - simpl. rewrite IH.
    destruct (decide (d ∈ l)) as [Hl|Hl], (decide (d ∈ k :: l)) as [Hkl|Hkl].
    + destruct (f d) eqn:Hfd; [done|].
      destruct (decide (k = d)) as [->|Hne]; [by rewrite Hfd|].
      destruct (f k); [by rewrite lookup_insert_ne|done].
    + exfalso. apply Hkl. by apply list_elem_of_further.
    + apply elem_of_cons in Hkl as [->|?]; [|done].
      destruct (f k); [apply lookup_insert_eq|done].
    + assert (k <> d) by (intros ->; apply Hkl, list_elem_of_here).
      destruct (f k); [by rewrite lookup_insert_ne|done].
Qed.

Lemma sanitize_breakdown_lookup raw d :
  sanitize_breakdown DENOMINATIONS raw !! d
  = if decide (d ∈ DENOMINATIONS) then valid_count (get_index raw d) else None.
Proof.
  unfold sanitize_breakdown.
  rewrite (foldl_valid_lookup (fun k => valid_count (get_index raw k))).
  rewrite lookup_empty. destruct (decide _); [|done].
  by destruct (valid_count _).
Qed.

Lemma sanitize_vault_lookup raw d :
  sanitize_vault DENOMINATIONS raw !! d
  = if decide (d ∈ DENOMINATIONS)
    then Some (default 0 (valid_count (get_index raw d))) else None.
Proof.
  unfold sanitize_vault.
  rewrite (foldl_valid_lookup (fun k => valid_count (get_index raw k))).
  rewrite initializeVault_lookup. destruct (decide _); [|done].
  by destruct (valid_count _).
Qed.

End LoadFacts.

(** ** Sanitization *)

Section SanitizeClaims.

Variable DENOMINATIONS : list Z.
Variable Date_getTime : JSON -> option (option Z).
Variable now : Z.

Implicit Types (d : Z) (raw tx : JSON) (t : Transaction).

Lemma sanitize_transaction_breakdown tx t :
  sanitize_transaction DENOMINATIONS Date_getTime now tx = Some (Some t) ->
  breakdown t
  = if decide (paymentMethod t = cash) then
      match get_field tx "breakdown" with
      | Some raw => if is_object (Some raw)
                    then sanitize_breakdown DENOMINATIONS raw else ∅
      | None => ∅
      end
    else ∅.
Proof.
  unfold sanitize_transaction. destruct tx as [| | | |items|fields]; try done.
  destruct (get_field (JObj fields) "id") as [[| | |tx_id| |]|]; try done.
  destruct (decide (tx_id = "")); [done|].
  destruct (migrated_date _ _ _) as [m_date|]; [|done]. by intros [= <-].
Qed.

Lemma raw_breakdown_sample_counts d :
  valid_count (get_index raw_breakdown_sample d)
  = if decide (d = 20) then Some 3 else None.
Proof.
  destruct (decide (d = 20)) as [->|Hne]; [by vm_compute|].
  unfold raw_breakdown_sample, get_index, obj_get.
  destruct (decide ("20" = pretty d)) as [Heq|_].
  { change "20" with (pretty 20) in Heq. by apply (inj pretty) in Heq. }
  destruct (decide ("50" = pretty d)); [done|].
  destruct (decide ("100" = pretty d)); done.
Qed.

(** C5. In a sanitized cash transaction, a configured denomination is
    kept exactly when its raw count is a finite number that is not
    negative, and is then held floored; every other key is left out, not
    set to 0. The raw breakdown [{100: -5, 50: "x", 20: 3.7}] thus becomes
    [{20: 3}]. *)
Theorem C5_breakdown_sanitized tx t raw :
  sanitize_transaction DENOMINATIONS Date_getTime now tx = Some (Some t) ->
  paymentMethod t = cash ->
  get_field tx "breakdown" = Some raw ->
  is_object (Some raw) = true ->
  (forall d n,
      breakdown t !! d = Some n
      <-> d ∈ DENOMINATIONS
          /\ exists q, get_index raw d = Some (JNum (Finite q))
                       /\ (0 <= q)%Q /\ n = Qfloor q)
  /\ (20 ∈ DENOMINATIONS -> raw = raw_breakdown_sample ->
      breakdown t = {[20 := 3]}).
Proof.
  intros Hsan Hcash Hraw Hobj.
  assert (breakdown t = sanitize_breakdown DENOMINATIONS raw) as ->.
  { rewrite (sanitize_transaction_breakdown tx t Hsan).
    rewrite decide_True by done. by rewrite Hraw, Hobj. }
  split.
  - intros d n. rewrite sanitize_breakdown_lookup.
    destruct (decide (d ∈ DENOMINATIONS)) as [Hd|Hd].
    + rewrite valid_count_Some. tauto.
    + split; [done|tauto].
  - intros H20 ->. apply map_eq. intros d.
    rewrite sanitize_breakdown_lookup, raw_breakdown_sample_counts.
    destruct (decide (d = 20)) as [->|Hne].
    + rewrite decide_True by done. by rewrite lookup_singleton_eq.
    + rewrite lookup_singleton_ne by done. by destruct (decide _).
Qed.

End SanitizeClaims.

(** ** The load effect *)

Section LoadClaims.

Variable DENOMINATIONS : list Z.
Variable JSON_parse : string -> option JSON.
Variable JSON_stringify : JSON -> string.
Variable Date_getTime : JSON -> option (option Z).
Variable now : Z.

Implicit Types (d : Z) (storage : Storage).

Lemma load_try_corrupted storage s :
  storage !! "transactions" = Some s \/ storage !! "vault" = Some s ->
  s <> "" -> JSON_parse s = None ->
  load_try DENOMINATIONS JSON_parse Date_getTime now storage = None.
Proof.
  intros [Hs|Hs] Hne Hparse; unfold load_try; rewrite Hs.
  - rewrite decide_False by done. by rewrite Hparse.
  - rewrite (decide_False (P := s = "")) by done. rewrite Hparse. simpl.
    by destruct (match storage !! "transactions" with Some _ => _ | None => _ end).
Qed.

(** C6. When [JSON.parse] throws on either persisted blob, the load
    effect still returns: it sets the empty list and the zero vault,
    whichever blob was the corrupted one, removes both keys from the
    storage and reports the corruption on the console. *)
Theorem C6_corrupted_blob_resets_everything storage s :
  storage !! "transactions" = Some s \/ storage !! "vault" = Some s ->
  s <> "" -> JSON_parse s = None ->
  let result := load DENOMINATIONS JSON_parse Date_getTime now storage in
  result
  = (initialState DENOMINATIONS,
     delete "vault" (delete "transactions" storage),
     ["CRITICAL: Corrupted localStorage data detected. Resetting application state."])
  /\ allTransactions result.1.1 = []
  /\ (forall d, count_or_0 (vault result.1.1) d = 0)
  /\ result.1.2 !! "transactions" = None
  /\ result.1.2 !! "vault" = None.
Proof.
  intros Hs Hne Hparse. simpl. unfold load.
  rewrite (load_try_corrupted storage s) by done. simpl.
  split_and!; [done..| | |].
  - apply initializeVault_count.
  - rewrite lookup_delete_ne by done. apply lookup_delete_eq.
  - apply lookup_delete_eq.
Qed.

(** The list set by the load effect is sorted. *)
Lemma load_sorted storage :
  sorted_by_date
    (allTransactions (load DENOMINATIONS JSON_parse Date_getTime now storage).1.1).
Proof.
  unfold load.
  destruct (load_try _ _ _ _ storage) as [st|] eqn:Htry; simpl.
  - unfold load_try in Htry.
    destruct (match storage !! "transactions" with Some _ => _ | None => _ end)
      as [finalTransactions|]; [|done]. simpl in Htry.
    destruct (match storage !! "vault" with Some _ => _ | None => _ end)
      as [finalVault|]; [|done]. simpl in Htry.
    injection Htry as <-. apply sort_by_date_sorted.
  - constructor.
Qed.

(** The vault set by the load effect holds 0 for a configured
    denomination whose count, in whatever the vault blob parses to, is not
    a valid one. *)
Lemma load_vault_lookup storage storedVault d :
  storage !! "vault" = Some storedVault ->
  d ∈ DENOMINATIONS ->
  (forall parsedVault, JSON_parse storedVault = Some parsedVault ->
     valid_count (get_index parsedVault d) = None) ->
  vault (load DENOMINATIONS JSON_parse Date_getTime now storage).1.1 !! d = Some 0.
Proof.
  intros Hs Hd Hcount. unfold load, load_try. rewrite Hs.
  assert (initializeVault DENOMINATIONS !! d = Some 0) as Hzero.
  { rewrite initializeVault_lookup. by rewrite decide_True. }
  destruct (match storage !! "transactions" with Some _ => _ | None => _ end)
    as [finalTransactions|]; simpl; [|done].
  destruct (decide (storedVault = "")); simpl; [done|].
  destruct (JSON_parse storedVault) as [parsedVault|] eqn:Hparse; simpl; [|done].
  destruct parsedVault; simpl; try done.
  rewrite sanitize_vault_lookup, (Hcount _ eq_refl). by rewrite decide_True.
Qed.

(** C10. Saving the vault and loading it again loses every negative
    count. Let a configured denomination be short in the vault that is
    saved, and let the saved text, if it parses at all, hold under that
    denomination the count that was written (as it does when
    [JSON.parse] undoes [JSON.stringify]). Then the vault that is loaded
    holds 0 for it, and so differs from the one that was saved. *)
Theorem C10_negative_count_lost_on_reload storage (v : NoteCounts) d :
  d ∈ DENOMINATIONS ->
  count_or_0 v d < 0 ->
  (forall parsedVault,
     JSON_parse (JSON_stringify (vault_to_json v)) = Some parsedVault ->
     get_index parsedVault d = get_index (vault_to_json v) d) ->
  let reloaded :=
    vault (load DENOMINATIONS JSON_parse Date_getTime now
             (persist_vault JSON_stringify v storage)).1.1 in
  reloaded !! d = Some 0 /\ reloaded <> v.
Proof.
  intros Hd Hneg Hround. simpl.
  destruct (v !! d) as [c|] eqn:Hv; unfold count_or_0 in Hneg; rewrite Hv in Hneg;
    simpl in Hneg; [|lia].
  assert (vault (load DENOMINATIONS JSON_parse Date_getTime now
                   (persist_vault JSON_stringify v storage)).1.1 !! d = Some 0) as H0.
  { eapply load_vault_lookup; [apply lookup_insert_eq|done|].
    intros parsedVault Hparse. rewrite (Hround _ Hparse).
    rewrite (get_index_vault_to_json v d c) by done. by apply valid_count_negative. }
  split; [done|]. intros Heq. rewrite Heq, Hv in H0. injection H0 as ->. lia.
Qed.

End LoadClaims.

(** ** The list of the store *)

Section StoreList.

Variable DENOMINATIONS : list Z.

Implicit Types (l : list Transaction) (tx u : Transaction) (st : State).

Lemma perform_sorted (currentUser : option User) c st :
  sorted_by_date (allTransactions st) ->
  sorted_by_date (allTransactions (perform DENOMINATIONS currentUser c st).1).
Proof.
  intros Hsorted. destruct c; simpl.
  - apply sort_by_date_sorted.
  - rewrite updateTransaction_list. apply sort_by_date_sorted.
  - by apply filter_sorted.
Qed.

Lemma run_sorted calls st :
  sorted_by_date (allTransactions st) ->
  sorted_by_date (allTransactions (run DENOMINATIONS calls st).1).
Proof.
  revert st. induction calls as [|[currentUser c] rest IH]; intros st Hsorted;
    [done|].
  rewrite run_state_cons. by apply IH, perform_sorted.
Qed.

(** C9. After the initial load and after every call that follows it, the
    list exposed to consumers, whoever the current user is, is sorted by
    date, latest first. *)
Theorem C9_exposed_list_sorted
    (JSON_parse : string -> option JSON) (Date_getTime : JSON -> option (option Z))
    (now : Z) (storage : Storage) (calls : list (option User * Call))
    (currentUser : option User) :
  let loaded := (load DENOMINATIONS JSON_parse Date_getTime now storage).1.1 in
  let st := (run DENOMINATIONS calls loaded).1 in
  sorted_by_date (visible currentUser (allTransactions st)).
Proof.
  simpl. apply filter_sorted, run_sorted, load_sorted.
Qed.

(** C8, as the code has it. [addTransaction] stores the record under the
    identifier and the date drawn for it. [updateTransaction] leaves the
    identifiers of the store as they are and every record with another
    identifier untouched; a record whose identifier is that of the
    argument is replaced by the argument as a whole, date included. *)
Theorem C8_update_replaces_whole_record (currentUser : option User) u st
    (new_id : string) (now : Z) (x : TransactionData) :
  let st' := (updateTransaction DENOMINATIONS currentUser u st).1 in
  {| id := new_id; date := now; data := x |}
    ∈ allTransactions (addTransaction new_id now x st)
  /\ id <$> allTransactions st' ≡ₚ id <$> allTransactions st
  /\ (forall tx, tx ∈ allTransactions st -> id tx <> id u ->
        tx ∈ allTransactions st')
  /\ (forall tx', tx' ∈ allTransactions st' ->
        (id tx' <> id u /\ tx' ∈ allTransactions st)
        \/ (tx' = u /\ exists tx, tx ∈ allTransactions st /\ id tx = id u)).
Proof.
  simpl. rewrite updateTransaction_list. split_and!.
  - rewrite elem_of_sort_by_date. apply elem_of_app. right. apply list_elem_of_here.
  - rewrite sort_by_date_perm. by rewrite ids_after_replace.
  - intros tx Htx Hid. rewrite elem_of_sort_by_date.
    apply list_elem_of_fmap. exists tx. split; [|done].
    unfold replace_by_id. by rewrite decide_False.
  - intros tx' Htx'. rewrite elem_of_sort_by_date in Htx'.
    apply list_elem_of_fmap in Htx' as (tx & -> & Htx).
    unfold replace_by_id. destruct (decide (id tx = id u)) as [Heq|Hne].
    + right. eauto.
    + left. done.
Qed.

End StoreList.

(** * Worked instances *)

(** The session of Ali stays in scope, and the vault is the signed sum
    at its end. *)
Lemma C1_witness_session_of_ali :
  vault_is_derived rupee_notes
    (run rupee_notes session_of_ali (initialState rupee_notes)).1.
Proof.
  apply (C1_vault_is_signed_sum_in_scope rupee_notes session_of_ali).
  - compute_done.
  - apply (proj1 (Forall_forall
                    (fun d => session_turnover d session_of_ali <= 2 ^ 53) _)).
    compute_done.
Defined.

(** Past [2 ^ 53] the sum is lost even in a session of one user: after a
    credit of [2 ^ 53] notes of 500, a credit of one note leaves the
    count where it was, and the debit of the [2 ^ 53] notes brings it to
    0, while the signed sum over the store is 1. *)
Lemma session_beyond_the_edge_loses_a_note :
  let st := (run rupee_notes session_beyond_the_edge (initialState rupee_notes)).1 in
  all_in_scope rupee_notes session_beyond_the_edge (initialState rupee_notes)
  /\ session_turnover 500 session_beyond_the_edge = 2 ^ 54 + 1
  /\ count_or_0 (vault st) 500 = 0
  /\ derived_count 500 (allTransactions st) = 1.
Proof. cbv zeta. split; [compute_done|]. split_and!; by vm_compute. Qed.

(** C1 as stated fails: with identifiers drawn fresh, Ali records a cash
    credit of one note of 500 and Bob deletes it by its identifier. The
    store is empty, so the signed sum is 0, while the vault still holds
    the note. *)
Lemma C1_counterexample_delete_by_another_user :
  ids_fresh rupee_notes delete_by_another_user (initialState rupee_notes)
  /\ 500 ∈ rupee_notes
  /\ allTransactions
       (run rupee_notes delete_by_another_user (initialState rupee_notes)).1 = []
  /\ count_or_0
       (vault (run rupee_notes delete_by_another_user (initialState rupee_notes)).1)
       500 = 1
  /\ ~ vault_is_derived rupee_notes
        (run rupee_notes delete_by_another_user (initialState rupee_notes)).1.
Proof.
  split_and!; [compute_done..|by vm_compute|by vm_compute|].
  intros Hderived. specialize (Hderived 500 ltac:(compute_done)).
  vm_compute in Hderived. discriminate.
Qed.

(** The scenario of C2 on the notes of the rupee. *)
Lemma C2_witness_three_entries :
  vault after_one_credit !! 500 = Some 1
  /\ vault (addTransaction "txn_2" 2000 (one_note_of_500 debit "Ali")
              after_one_credit) !! 500 = Some 0
  /\ vault (addTransaction "txn_3" 3000 (one_note_of_500 debit "Ali")
              (addTransaction "txn_2" 2000 (one_note_of_500 debit "Ali")
                 after_one_credit)) !! 500 = Some (-1).
Proof.
  apply (C2_vault_may_go_negative rupee_notes "txn_1" "txn_2" "txn_3" 1000 2000 3000
           (one_note_of_500 credit "Ali") (one_note_of_500 debit "Ali")
           (one_note_of_500 debit "Ali")); by repeat split.
Defined.



(** The vault after the credit of Ali: one note of 500, and nothing
    else. *)
Lemma after_one_credit_lookup d :
  vault after_one_credit !! d
  = if decide (d = 500) then Some 1 else initializeVault rupee_notes !! d.
Proof.
  unfold after_one_credit, addTransaction. simpl.
  rewrite add_to_vault_lookup by done. simpl.
  destruct (decide (d = 500)) as [->|Hne]; [by vm_compute|].
  by rewrite lookup_singleton_ne.
Defined.

Lemma after_one_credit_count d : 0 <= count_or_0 (vault after_one_credit) d <= 1.
Proof.
  unfold count_or_0. rewrite after_one_credit_lookup.
  destruct (decide (d = 500)); [simpl; lia|].
  fold (count_or_0 (initializeVault rupee_notes) d).
  rewrite initializeVault_count. lia.
Defined.

Lemma one_note_impact d (t : TxType) (who : string) :
  Z.abs (impact d (one_note_of_500 t who)) <= 1.
Proof.
  rewrite abs_impact_count by done. unfold count_or_0. simpl.
  destruct (decide (d = 500)) as [->|Hne].
  - rewrite lookup_singleton_eq. simpl. lia.
  - rewrite lookup_singleton_ne by done. simpl. lia.
Defined.

(** That vault has room for one more note, in or out. *)
Lemma after_one_credit_room (t : TxType) (who : string) :
  exact_on (vault after_one_credit) (one_note_of_500 t who).
Proof.
  intros d. pose proof (after_one_credit_count d).
  pose proof (one_note_impact d t who). lia.
Defined.





(** The sample entry is kept, with the breakdown [{20: 3}]. *)
Lemma C5_witness_sample_entry :
  exists t,
    sanitize_transaction rupee_notes epoch_millis 0 raw_transaction_sample
    = Some (Some t)
    /\ breakdown t = {[20 := 3]}.
Proof.
  eexists. split; [vm_compute; reflexivity|].
  apply (C5_breakdown_sanitized rupee_notes epoch_millis 0
           raw_transaction_sample _ raw_breakdown_sample);
    [vm_compute; reflexivity|reflexivity|reflexivity|reflexivity
    |compute_done|reflexivity].
Defined.

(** The reader rejects the text [not json] at its second character,
    whatever the fuel. *)
Lemma not_json_rejected fuel : JsonText.read_value fuel "not json" = None.
Proof. by destruct fuel. Qed.

(** The text [not json] is no JSON: loading it resets the list and the
    vault, whose own blob was sound, and clears both keys. *)
Lemma C6_witness_not_json :
  JsonText.parse "not json" = None
  /\ load rupee_notes JsonText.parse epoch_millis 0 corrupted_storage
     = (initialState rupee_notes,
        delete "vault" (delete "transactions" corrupted_storage),
        ["CRITICAL: Corrupted localStorage data detected. Resetting application state."]).
Proof.
  split; [by vm_compute|].
  apply (C6_corrupted_blob_resets_everything rupee_notes JsonText.parse epoch_millis 0
           corrupted_storage "not json");
    [left; apply lookup_insert_eq|done|by vm_compute].
Defined.

(** Bob, who cannot see the credit of Ali, updates it by its identifier:
    the vault keeps the note, the record is rewritten. *)
Lemma C7_witness_update_by_another_user :
  let u := {| id := "txn_1"; date := 1000; data := one_note_of_500 debit "bob" |} in
  vault (updateTransaction rupee_notes (Some bob) u after_one_credit).1
  = vault after_one_credit
  /\ (updateTransaction rupee_notes (Some bob) u after_one_credit).2
     = ["Original transaction not found for vault update."]
  /\ u ∈ allTransactions (updateTransaction rupee_notes (Some bob) u after_one_credit).1.
Proof.
  simpl.
  pose proof (C7_update_of_hidden_id rupee_notes (Some bob)
                {| id := "txn_1"; date := 1000; data := one_note_of_500 debit "bob" |}
                after_one_credit) as H.
  simpl in H. destruct H as (Hvault & Hout & _ & Hlist).
  - intros tx Htx. vm_compute in Htx. by apply elem_of_nil in Htx.
  - split_and!; [done..|]. apply Hlist. exists the_credit.
    split; [vm_compute; apply list_elem_of_here|done].
Defined.

(** C8 as stated fails: Ali records a credit at instant 1000 and updates
    it with a record of the same identifier dated 2000. The stored record
    of that identifier is dated 1000 before the call and 2000 after it. *)
Lemma C8_counterexample_date_replaced :
  let u := {| id := "txn_1"; date := 2000; data := one_note_of_500 credit "Ali" |} in
  let st' := (updateTransaction rupee_notes (Some ali) u after_one_credit).1 in
  date <$> allTransactions after_one_credit = [1000]
  /\ id <$> allTransactions after_one_credit = ["txn_1"]
  /\ id <$> allTransactions st' = ["txn_1"]
  /\ date <$> allTransactions st' = [2000]
  /\ exists tx tx', tx ∈ allTransactions after_one_credit
                   /\ tx' ∈ allTransactions st'
                   /\ id tx' = id tx /\ date tx' <> date tx.
Proof.
  simpl. split_and!; [by vm_compute..|].
  exists the_credit,
    {| id := "txn_1"; date := 2000; data := one_note_of_500 credit "Ali" |}.
  split_and!; [vm_compute; apply list_elem_of_here..|done|done].
Qed.

(** The vault of the scenario of C2, one note of 500 short, comes back
    from the storage with no note of 500 and no debt. *)
Lemma C10_witness_short_of_one_note :
  let short :=
    vault (addTransaction "txn_3" 3000 (one_note_of_500 debit "Ali")
             (addTransaction "txn_2" 2000 (one_note_of_500 debit "Ali")
                after_one_credit)) in
  let reloaded :=
    vault (load rupee_notes JsonText.parse epoch_millis 0
             (persist_vault JsonText.stringify short ∅)).1.1 in
  short !! 500 = Some (-1) /\ reloaded !! 500 = Some 0 /\ reloaded <> short.
Proof.
  simpl. split; [by vm_compute|].
  apply (C10_negative_count_lost_on_reload rupee_notes JsonText.parse
           JsonText.stringify epoch_millis 0 ∅);
    [compute_done|by vm_compute|].
  intros parsedVault Hparse. vm_compute in Hparse. by injection Hparse as <-.
Defined.

(** * Further properties of the ledger *)

Section VaultKeys.

Variable DENOMINATIONS : list Z.

Implicit Types (v b : NoteCounts) (d : Z) (l : list Transaction)
  (tx u : Transaction) (st : State).

Lemma add_to_vault_keeps_key tx v d :
  is_Some (v !! d) -> is_Some (add_to_vault tx v !! d).
Proof.
  intros Hd. unfold add_to_vault. destruct (decide _); [|done].
  rewrite for_in_apply_lookup. destruct (breakdown tx !! d); [by eexists|done].
Qed.

Lemma remove_from_vault_keeps_key v tx d :
  is_Some (v !! d) -> is_Some (remove_from_vault v tx !! d).
Proof.
  intros Hd. unfold remove_from_vault. destruct (decide _); [|done].
  rewrite for_in_revert_lookup. destruct (breakdown tx !! d); [by eexists|done].
Qed.

Lemma update_vault_keeps_key l u v d :
  is_Some (v !! d) -> is_Some ((update_vault DENOMINATIONS l u v).1 !! d).
Proof.
  intros Hd. unfold update_vault. destruct (find_by_id _ _) as [o|]; [|done].
  simpl.
  assert (is_Some ((if decide (paymentMethod o = cash)
                    then for_in (if_configured DENOMINATIONS (revert_note (type o)))
                           (breakdown o) v
                    else v) !! d)) as Hd1.
  { destruct (decide _); [|done]. rewrite for_in_configured_revert_lookup.
    destruct (breakdown o !! d); [|done].
    destruct (decide (d ∈ DENOMINATIONS)); [by eexists|done]. }
  destruct (decide (paymentMethod u = cash)); [|done].
  rewrite for_in_configured_apply_lookup.
  destruct (breakdown u !! d); [|done].
  destruct (decide (d ∈ DENOMINATIONS)); [by eexists|done].
Qed.

Lemma perform_keeps_key (currentUser : option User) c st d :
  is_Some (vault st !! d) ->
  is_Some (vault (perform DENOMINATIONS currentUser c st).1 !! d).
Proof.
  intros Hd. destruct c as [new_id now x|u|ids]; simpl.
  - by apply add_to_vault_keeps_key.
  - rewrite updateTransaction_vault. by apply update_vault_keeps_key.
  - generalize (filter (fun tx => id tx ∈ ids)
                  (visible currentUser (allTransactions st))).
    intros l. revert Hd. generalize (vault st).
    induction l as [|tx l IH]; intros v Hd; simpl; [done|].
    by apply IH, remove_from_vault_keeps_key.
Qed.

Lemma run_keeps_key calls st d :
  is_Some (vault st !! d) ->
  is_Some (vault (run DENOMINATIONS calls st).1 !! d).
Proof.
  revert st. induction calls as [|[currentUser c] rest IH]; intros st Hd; [done|].
  rewrite run_state_cons. by apply IH, perform_keeps_key.
Qed.

Lemma load_vault_has_key (JSON_parse : string -> option JSON)
    (Date_getTime : JSON -> option (option Z)) (now : Z) (storage : Storage) d :
  d ∈ DENOMINATIONS ->
  is_Some (vault (load DENOMINATIONS JSON_parse Date_getTime now storage).1.1 !! d).
Proof.
  intros Hd.
  assert (is_Some (initializeVault DENOMINATIONS !! d)) as Hinit.
  { rewrite initializeVault_lookup. rewrite decide_True by done. by eexists. }
  unfold load, load_try.
  destruct (match storage !! "transactions" with Some _ => _ | None => _ end)
    as [finalTransactions|]; simpl; [|done].
  destruct (storage !! "vault") as [storedVault|]; simpl; [|done].
  destruct (decide (storedVault = "")); simpl; [done|].
  destruct (JSON_parse storedVault) as [parsedVault|]; simpl; [|done].
  destruct parsedVault; simpl; try done.
  rewrite sanitize_vault_lookup. rewrite decide_True by done. by eexists.
Qed.

(** X1. No call ever removes a key from the vault, and the load effect
    gives it a key for every configured denomination: after the load and
    any calls, every configured denomination has a count of its own in the
    vault. *)
Theorem X1_vault_keeps_its_keys
    (JSON_parse : string -> option JSON) (Date_getTime : JSON -> option (option Z))
    (now : Z) (storage : Storage) (calls : list (option User * Call)) st :
  dom (vault st) ⊆ dom (vault (run DENOMINATIONS calls st).1)
  /\ Forall (fun d =>
       is_Some (vault (run DENOMINATIONS calls
                         (load DENOMINATIONS JSON_parse Date_getTime now storage).1.1).1
                !! d)) DENOMINATIONS.
Proof.
  split.
  - intros d Hd%elem_of_dom. by apply elem_of_dom, run_keeps_key.
  - apply Forall_forall. intros d Hd. by apply run_keeps_key, load_vault_has_key.
Qed.

End VaultKeys.

Section CallLaws.

Variable DENOMINATIONS : list Z.

Implicit Types (v b : NoteCounts) (d : Z) (l : list Transaction)
  (tx u o x : Transaction) (st : State).

(** X2. What [updateTransaction] does to the vault when it finds the
    original: the count of a configured denomination for which the vault
    has room (count held, count of the original and count of the new
    record within [2 ^ 53] together) moves by the impact of the new
    record less the impact of the original, and no other key of the vault
    is touched, whatever the two breakdowns hold. *)
Theorem X2_update_moves_configured_counts_only (currentUser : option User) u o st :
  find_by_id (id u) (visible currentUser (allTransactions st)) = Some o ->
  let v' := vault (updateTransaction DENOMINATIONS currentUser u st).1 in
  (forall d, d ∈ DENOMINATIONS ->
     Z.abs (count_or_0 (vault st) d) + Z.abs (impact d o) + Z.abs (impact d u)
       <= 2 ^ 53 ->
     count_or_0 v' d = count_or_0 (vault st) d - impact d o + impact d u)
  /\ (forall d, d ∉ DENOMINATIONS -> v' !! d = vault st !! d).
Proof.
  intros Hfind. simpl. rewrite updateTransaction_vault. split.
  - intros d Hd Hroom.
    rewrite (update_vault_found_count _ _ _ o)
      by (done || rewrite decide_True by done; lia).
    rewrite decide_True by done. lia.
  - intros d Hd. unfold update_vault. rewrite Hfind. simpl.
    assert ((if decide (paymentMethod o = cash)
             then for_in (if_configured DENOMINATIONS (revert_note (type o)))
                    (breakdown o) (vault st)
             else vault st) !! d = vault st !! d) as Hrevert.
    { destruct (decide _); [|done]. rewrite for_in_configured_revert_lookup.
      destruct (breakdown o !! d); [|done]. by rewrite decide_False. }
    destruct (decide (paymentMethod u = cash)); [|done].
    rewrite for_in_configured_apply_lookup.
    destruct (breakdown u !! d); [|done]. by rewrite decide_False.
Qed.

(** Sorting a sorted list leaves it as it is. *)
Lemma insert_by_date_last x l :
  Forall (fun y => date x <= date y) l -> insert_by_date x l = l ++ [x].
Proof.
  induction 1 as [|y l Hy Hl IH]; simpl; [done|].
  rewrite decide_False by lia. by rewrite IH.
Qed.

Lemma sort_by_date_of_sorted l : sorted_by_date l -> sort_by_date l = l.
Proof.
  rewrite sorted_by_date_strongly. unfold sort_by_date.
  assert (forall acc,
    StronglySorted (fun a b : Transaction => date b <= date a) (acc ++ l) ->
    foldl (fun acc x => insert_by_date x acc) acc l = acc ++ l) as Hgen.
  { induction l as [|x l IH]; intros acc Hsorted; simpl.
    - by rewrite app_nil_r.
    - rewrite insert_by_date_last.
      + rewrite IH; rewrite <- app_assoc; done.
      + apply Forall_forall. intros y Hy.
        apply (StronglySorted_app_1_elem_of _ _ _ y x Hsorted Hy), list_elem_of_here. }
  intros Hsorted. by apply (Hgen []).
Qed.

Lemma filter_insert_by_date_out (P : Transaction -> Prop)
    `{!forall tx, Decision (P tx)} x l :
  ~ P x -> filter P (insert_by_date x l) = filter P l.
Proof.
  intros Hx. induction l as [|y l IH]; simpl.
  - by rewrite filter_cons_False.
  - destruct (decide (date y < date x)).
    + by rewrite filter_cons_False.
    + rewrite !(filter_cons P y). by rewrite IH.
Qed.

Lemma filter_all (P : Transaction -> Prop) `{!forall tx, Decision (P tx)} l :
  (forall tx, tx ∈ l -> P tx) -> filter P l = l.
Proof.
  induction l as [|a l IH]; intros Hall; [done|].
  rewrite filter_cons_True by (apply Hall, list_elem_of_here).
  f_equal. apply IH. intros tx Htx. by apply Hall, list_elem_of_further.
Qed.

Lemma sort_by_date_snoc l x :
  sort_by_date (l ++ [x]) = insert_by_date x (sort_by_date l).
Proof. unfold sort_by_date. by rewrite foldl_snoc. Qed.

Lemma filter_insert_by_date_only (P : Transaction -> Prop)
    `{!forall tx, Decision (P tx)} x l :
  P x -> (forall tx, tx ∈ l -> ~ P tx) -> filter P (insert_by_date x l) = [x].
Proof.
  intros Hx. induction l as [|y l IH]; intros Hl; simpl.
  - by rewrite filter_cons_True.
  - assert (~ P y) as Hy by apply Hl, list_elem_of_here.
    assert (forall tx, tx ∈ l -> ~ P tx) as Hl'
      by (intros tx Htx; by apply Hl, list_elem_of_further).
    destruct (decide (date y < date x)).
    + rewrite filter_cons_True, filter_cons_False by done.
      f_equal. by apply filter_none.
    + rewrite filter_cons_False by done. by apply IH.
Qed.

(** X3. Recording a transaction and then deleting it by its identifier
    undoes the recording: when the identifier is fresh, the record is the
    current user's and the list was sorted, the list is again what it
    was; and every denomination has its former count when the vault had
    room for the notes of the record (count held and count moved within
    [2 ^ 53] together). *)
Theorem X3_add_then_delete_is_undone (currentUser : option User) st
    (new_id : string) (now : Z) (data : TransactionData) :
  new_id ∉ id <$> allTransactions st ->
  sorted_by_date (allTransactions st) ->
  owned_by currentUser {| id := new_id; date := now; data := data |} ->
  let st' := deleteTransactionsByIds currentUser [new_id]
               (addTransaction new_id now data st) in
  allTransactions st' = allTransactions st
  /\ (exact_on (vault st) data -> same_counts (vault st') (vault st)).
Proof.
  intros Hfresh Hsorted Hown. simpl.
  set (new := {| id := new_id; date := now; data := data |}).
  assert (forall tx, tx ∈ allTransactions st -> id tx ∉ [new_id]) as Hothers.
  { intros tx Htx Heq%list_elem_of_singleton. apply Hfresh.
    rewrite <- Heq. by apply list_elem_of_fmap_2. }
  rewrite sort_by_date_snoc, sort_by_date_of_sorted by done. split.
  - rewrite filter_insert_by_date_out.
    + by apply filter_all.
    + intros Hnot. apply Hnot. simpl. apply list_elem_of_here.
  - intros Hroom d. specialize (Hroom d). unfold visible.
    rewrite list_filter_filter.
    rewrite (filter_insert_by_date_only _ new).
    + simpl.
      assert (count_or_0 (add_to_vault new (vault st)) d
              = count_or_0 (vault st) d + impact d new) as Hadded
        by (apply add_to_vault_count; simpl; lia).
      rewrite remove_from_vault_count; rewrite Hadded; simpl; lia.
    + split; [simpl; apply list_elem_of_here|done].
    + intros tx Htx [Hid _]. by apply (Hothers tx).
Qed.

(** X4. Deleting identifiers the store does not hold, the empty list of
    identifiers among them, changes nothing: neither the list nor the
    vault. *)
Theorem X4_delete_of_absent_ids_is_identity (currentUser : option User)
    (ids : list string) st :
  (forall tx, tx ∈ allTransactions st -> id tx ∉ ids) ->
  deleteTransactionsByIds currentUser ids st = st.
Proof.
  intros Habsent. unfold deleteTransactionsByIds.
  rewrite filter_all by done.
  rewrite (filter_none (fun tx => id tx ∈ ids)).
  - by destruct st.
  - intros tx [_ Htx]%list_elem_of_filter Hin. by apply (Habsent tx).
Qed.

End CallLaws.

Section CallSequences.

Variable DENOMINATIONS : list Z.

Implicit Types (v b : NoteCounts) (d : Z) (l : list Transaction)
  (tx u o x : Transaction) (st : State).

Lemma derived_count_delete_twice (currentUser : option User)
    (ids1 ids2 : list string) d l :
  derived_count d
    (filter (fun tx => id tx ∈ ids1 ++ ids2) (visible currentUser l))
  = derived_count d (filter (fun tx => id tx ∈ ids1) (visible currentUser l))
    + derived_count d
        (filter (fun tx => id tx ∈ ids2)
           (visible currentUser (filter (fun tx => id tx ∉ ids1) l))).
Proof.
  unfold visible. induction l as [|a l IH]; [done|].
  destruct (decide (owned_by currentUser a)) as [Ho|Ho],
    (decide (id a ∈ ids1)) as [H1|H1], (decide (id a ∈ ids2)) as [H2|H2];
    repeat first
      [ rewrite filter_cons_True by (rewrite ?elem_of_app; tauto)
      | rewrite filter_cons_False by (rewrite ?elem_of_app; tauto) ];
    simpl; lia.
Qed.

Lemma turnover_delete_twice (currentUser : option User)
    (ids1 ids2 : list string) d l :
  turnover d
    (filter (fun tx => id tx ∈ ids1 ++ ids2) (visible currentUser l))
  = turnover d (filter (fun tx => id tx ∈ ids1) (visible currentUser l))
    + turnover d
        (filter (fun tx => id tx ∈ ids2)
           (visible currentUser (filter (fun tx => id tx ∉ ids1) l))).
Proof.
  unfold visible. induction l as [|a l IH]; [done|].
  destruct (decide (owned_by currentUser a)) as [Ho|Ho],
    (decide (id a ∈ ids1)) as [H1|H1], (decide (id a ∈ ids2)) as [H2|H2];
    repeat first
      [ rewrite filter_cons_True by (rewrite ?elem_of_app; tauto)
      | rewrite filter_cons_False by (rewrite ?elem_of_app; tauto) ];
    simpl; lia.
Qed.

(** X5. Deleting in two calls is deleting in one: after
    [deleteTransactionsByIds] on [ids1] and then on [ids2], the list is
    the one a single call on both lists of identifiers leaves; and every
    denomination has the same count when the vault has room for the notes
    of the visible transactions (count held and notes moved by them
    within [2 ^ 53] together), so that the order in which the doubles are
    subtracted does not matter. *)
Theorem X5_delete_twice_is_delete_once (currentUser : option User)
    (ids1 ids2 : list string) st :
  let twice := deleteTransactionsByIds currentUser ids2
                 (deleteTransactionsByIds currentUser ids1 st) in
  let once := deleteTransactionsByIds currentUser (ids1 ++ ids2) st in
  allTransactions twice = allTransactions once
  /\ ((forall d, Z.abs (count_or_0 (vault st) d)
                 + turnover d (visible currentUser (allTransactions st)) <= 2 ^ 53) ->
      same_counts (vault twice) (vault once)).
Proof.
  simpl. split.
  - rewrite list_filter_filter. apply list_filter_iff.
    intros tx. rewrite elem_of_app. tauto.
  - intros Hroom d. specialize (Hroom d).
    pose proof (turnover_delete_twice currentUser ids1 ids2 d (allTransactions st))
      as Hsplit.
    pose proof (turnover_sublist d _ _
                  (sublist_filter (fun tx => id tx ∈ ids1 ++ ids2)
                     (visible currentUser (allTransactions st)))) as Hall.
    pose proof (turnover_nonneg d
                  (filter (fun tx => id tx ∈ ids1)
                     (visible currentUser (allTransactions st)))) as Hfirst.
    pose proof (turnover_nonneg d
                  (filter (fun tx => id tx ∈ ids2)
                     (visible currentUser
                        (filter (fun tx => id tx ∉ ids1) (allTransactions st)))))
      as Hsecond.
    pose proof (derived_count_within_turnover d
                  (filter (fun tx => id tx ∈ ids1)
                     (visible currentUser (allTransactions st)))) as Hsum.
    assert (count_or_0
              (foldl remove_from_vault (vault st)
                 (filter (fun tx => id tx ∈ ids1)
                    (visible currentUser (allTransactions st)))) d
            = count_or_0 (vault st) d
              - derived_count d
                  (filter (fun tx => id tx ∈ ids1)
                     (visible currentUser (allTransactions st)))) as Hleft
      by (apply foldl_remove_count_room; lia).
    rewrite (foldl_remove_count_room
               (filter (fun tx => id tx ∈ ids1 ++ ids2)
                  (visible currentUser (allTransactions st)))) by lia.
    rewrite foldl_remove_count_room; rewrite Hleft; [|lia].
    rewrite derived_count_delete_twice. lia.
Qed.

Lemma foldl_remove_upi l v :
  Forall (fun tx => paymentMethod tx = upi) l ->
  foldl remove_from_vault v l = v.
Proof.
  induction 1 as [|tx l Htx Hl IH]; simpl; [done|].
  unfold remove_from_vault at 2. rewrite decide_False by congruence. done.
Qed.

Lemma perform_upi (currentUser : option User) c st :
  Forall (fun tx => paymentMethod tx = upi) (allTransactions st) ->
  upi_call c ->
  Forall (fun tx => paymentMethod tx = upi)
    (allTransactions (perform DENOMINATIONS currentUser c st).1)
  /\ vault (perform DENOMINATIONS currentUser c st).1 = vault st.
Proof.
  intros Hall Hc. rewrite Forall_forall in Hall.
  destruct c as [new_id now x|u|ids]; simpl in *.
  - split.
    + apply Forall_forall. intros tx Htx. rewrite elem_of_sort_by_date in Htx.
      apply elem_of_app in Htx as [Htx| ->%list_elem_of_singleton]; [|done].
      by apply Hall.
    + unfold add_to_vault. simpl. by rewrite decide_False by congruence.
  - rewrite updateTransaction_list, updateTransaction_vault. split.
    + apply Forall_forall. intros tx Htx. rewrite elem_of_sort_by_date in Htx.
      apply list_elem_of_fmap in Htx as (t & -> & Ht).
      unfold replace_by_id. destruct (decide _); [done|]. by apply Hall.
    + unfold update_vault.
      destruct (find_by_id _ _) as [o|] eqn:Hfind; [|done]. simpl.
      apply find_by_id_elem in Hfind as [[_ Ho]%list_elem_of_filter _].
      rewrite (decide_False (P := paymentMethod u = cash)) by congruence.
      rewrite decide_False; [done|]. rewrite (Hall o Ho). done.
  - split.
    + apply Forall_forall. intros tx [_ Htx]%list_elem_of_filter. by apply Hall.
    + apply foldl_remove_upi, Forall_forall.
      intros tx [_ [_ Htx]%list_elem_of_filter]%list_elem_of_filter.
      by apply Hall.
Qed.

(** X6. Records that are not cash never move the vault: from a store
    that holds UPI transactions only, any sequence of calls that add or
    substitute UPI records, and delete whatever they like, leaves the
    vault the very map it was. *)
Theorem X6_upi_never_moves_the_vault (calls : list (option User * Call)) st :
  Forall (fun tx => paymentMethod tx = upi) (allTransactions st) ->
  Forall (fun uc => upi_call uc.2) calls ->
  vault (run DENOMINATIONS calls st).1 = vault st.
Proof.
  revert st. induction calls as [|[currentUser c] rest IH]; intros st Hall Hcalls;
    [done|].
  apply Forall_cons in Hcalls as [Hc Hrest]. rewrite run_state_cons.
  destruct (perform_upi currentUser c st Hall Hc) as [Hall' Hvault].
  rewrite IH by done. exact Hvault.
Qed.

Lemma map_keeps_sorted (f : Transaction -> Transaction) l :
  (forall tx, tx ∈ l -> date (f tx) = date tx) ->
  sorted_by_date l -> sorted_by_date (map f l).
Proof.
  rewrite !sorted_by_date_strongly. intros Hdate Hsorted.
  induction Hsorted as [|y l Hl IH Hy]; simpl; [constructor|].
  constructor.
  - apply IH. intros tx Htx. by apply Hdate, list_elem_of_further.
  - rewrite Forall_forall in Hy. apply Forall_forall.
    intros z' (z & -> & Hz)%list_elem_of_fmap.
    rewrite (Hdate y) by apply list_elem_of_here.
    rewrite (Hdate z) by (by apply list_elem_of_further). by apply Hy.
Qed.

(** X7. Editing a transaction without changing its date moves nothing
    in the list: when the list is sorted and the record passed to
    [updateTransaction] carries the date of the records it replaces, each
    record keeps its place, the replaced ones giving theirs to the new
    record. *)
Theorem X7_update_with_same_date_keeps_order (currentUser : option User) u st :
  sorted_by_date (allTransactions st) ->
  (forall tx, tx ∈ allTransactions st -> id tx = id u -> date tx = date u) ->
  allTransactions (updateTransaction DENOMINATIONS currentUser u st).1
  = map (replace_by_id u) (allTransactions st).
Proof.
  intros Hsorted Hdate. rewrite updateTransaction_list.
  apply sort_by_date_of_sorted, map_keeps_sorted; [|done].
  intros tx Htx. unfold replace_by_id.
  destruct (decide (id tx = id u)); [|done]. symmetry. by apply Hdate.
Qed.

Lemma session_stays_in_scope (user : User) calls st :
  Forall (owned_by (Some user)) (allTransactions st) ->
  session_of user calls ->
  ids_fresh DENOMINATIONS calls st ->
  all_in_scope DENOMINATIONS calls st.
Proof.
  revert st. induction calls as [|[currentUser c] rest IH];
    intros st Howned Hsession Hfresh; [done|].
  apply Forall_cons in Hsession as [[Huser Hown] Hrest].
  destruct Hfresh as [Hc Hfresh]. simpl in Huser, Hown. subst currentUser.
  assert (in_scope (Some user) c st) as Hscope.
  { destruct c; simpl; [done|..];
      (eapply Forall_impl; [exact Howned|]; by intros tx Htx _). }
  split; [done|]. apply IH; [|done..].
  rewrite Forall_forall in Howned. apply Forall_forall.
  destruct c as [new_id now x|u|ids]; simpl in *.
  - intros tx Htx. rewrite elem_of_sort_by_date in Htx.
    apply elem_of_app in Htx as [Htx| ->%list_elem_of_singleton]; [|done].
    by apply Howned.
  - rewrite updateTransaction_list. intros tx Htx.
    rewrite elem_of_sort_by_date in Htx.
    apply list_elem_of_fmap in Htx as (t & -> & Ht).
    unfold replace_by_id. destruct (decide _); [done|]. by apply Howned.
  - intros tx [_ Htx]%list_elem_of_filter. by apply Howned.
Qed.

(** X8. In a session of one user who records and edits under his own
    name, with identifiers drawn fresh and no more than [2 ^ 53] notes of
    a configured denomination brought by the records of the calls, the
    vault never drifts from the store: from the empty store, the count of
    every configured denomination is the signed sum over the cash
    transactions, after every call. *)
Theorem X8_own_session_keeps_vault_derived (user : User)
    (calls : list (option User * Call)) :
  session_of user calls ->
  ids_fresh DENOMINATIONS calls (initialState DENOMINATIONS) ->
  (forall d, d ∈ DENOMINATIONS -> session_turnover d calls <= 2 ^ 53) ->
  vault_is_derived DENOMINATIONS
    (run DENOMINATIONS calls (initialState DENOMINATIONS)).1.
Proof.
  intros Hsession Hfresh Hroom.
  apply (run_inv DENOMINATIONS calls (initialState DENOMINATIONS)).
  - apply (session_stays_in_scope user); [constructor|done..].
  - apply initialState_inv.
  - intros d Hd. specialize (Hroom d Hd). simpl. lia.
Qed.

End CallSequences.

(** * Further properties of the persisted data *)

Lemma both_iff (A B C D : Prop) : (A <-> C) -> (B <-> D) -> (A /\ B <-> C /\ D).
Proof. intros [HAC HCA] [HBD HDB]. split; intros [? ?]; split; auto. Qed.

Section SanitizedData.

Variable DENOMINATIONS : list Z.
Variable Date_getTime : JSON -> option (option Z).
Variable now : Z.

Implicit Types (d : Z) (raw tx : JSON) (t : Transaction).

Lemma sanitize_transaction_id tx t :
  sanitize_transaction DENOMINATIONS Date_getTime now tx = Some (Some t) ->
  raw_id tx = Some (id t).
Proof.
  unfold sanitize_transaction, raw_id.
  destruct tx as [| | | |items|fields]; try done.
  destruct (get_field (JObj fields) "id") as [[| | |tx_id| |]|]; try done.
  destruct (decide (tx_id = "")); [done|].
  destruct (migrated_date _ _ _) as [m_date|]; [|done]. by intros [= <-].
Qed.

(** The migration of an entry throws exactly when its date does. *)
Lemma sanitize_transaction_throws tx :
  sanitize_transaction DENOMINATIONS Date_getTime now tx = None
  <-> date_throws Date_getTime tx.
Proof.
  unfold sanitize_transaction, date_throws, raw_id.
  destruct tx as [| | | |items|fields]; cbv beta iota; try (split; done).
  change (get_field (JObj fields) "id") with (obj_get "id" fields).
  destruct (obj_get "id" fields) as [[| | |tx_id| |]|]; cbv beta iota;
    try (split; done).
  destruct (decide (tx_id = "")); [split; done|].
  unfold migrated_date.
  change (get_field (JObj fields) "date") with (obj_get "date" fields).
  destruct (obj_get "date" fields) as [tx_date|]; cbv beta iota; [|split; done].
  destruct (truthy (Some tx_date)); cbv beta iota; [|split; [done|by intros [? _]]].
  destruct (Date_getTime tx_date) as [time|]; split; try done.
  by intros [_ ?].
Qed.

(** An entry that does not throw is kept exactly when its [id] is a
    string that is not empty. *)
Lemma sanitize_transaction_discarded tx :
  sanitize_transaction DENOMINATIONS Date_getTime now tx = Some None ->
  raw_id tx = None.
Proof.
  unfold sanitize_transaction, raw_id.
  destruct tx as [| | | |items|fields]; try done.
  destruct (get_field (JObj fields) "id") as [[| | |tx_id| |]|]; try done.
  destruct (decide (tx_id = "")); [done|].
  by destruct (migrated_date _ _ _) as [m_date|].
Qed.

Lemma migration_returns (items : list JSON) :
  is_Some (mapM (sanitize_transaction DENOMINATIONS Date_getTime now) items)
  <-> Forall (fun tx => ~ date_throws Date_getTime tx) items.
Proof.
  rewrite mapM_is_Some. apply Forall_proper; [|done]. intros tx. simpl.
  rewrite <- sanitize_transaction_throws, <- not_eq_None_Some. done.
Qed.

Lemma ids_of_sanitized (items : list JSON) (migrated : list (option Transaction)) :
  mapM (sanitize_transaction DENOMINATIONS Date_getTime now) items = Some migrated ->
  id <$> omap (fun tx : option Transaction => tx) migrated = omap raw_id items.
Proof.
  intros Hmigrated%mapM_Some_1.
  induction Hmigrated as [|tx r items migrated Hr _ IH]; [done|].
  change (omap ?f (?x :: ?l))
    with (match f x with Some y => y :: omap f l | None => omap f l end).
  destruct r as [t|].
  - rewrite (sanitize_transaction_id tx t Hr). rewrite fmap_cons. by f_equal.
  - by rewrite (sanitize_transaction_discarded tx Hr).
Qed.

Lemma elem_of_sanitized (items : list JSON) (migrated : list (option Transaction)) t :
  mapM (sanitize_transaction DENOMINATIONS Date_getTime now) items = Some migrated ->
  t ∈ omap (fun tx : option Transaction => tx) migrated ->
  exists tx, tx ∈ items
             /\ sanitize_transaction DENOMINATIONS Date_getTime now tx = Some (Some t).
Proof.
  intros Hmigrated%mapM_Some_1.
  induction Hmigrated as [|tx r items migrated Hr _ IH].
  - by intros ?%elem_of_nil.
  - change (omap ?f (?x :: ?l))
      with (match f x with Some y => y :: omap f l | None => omap f l end).
    destruct r as [t'|].
    + intros [->|Hin]%elem_of_cons.
      * exists tx. split; [apply list_elem_of_here|done].
      * destruct (IH Hin) as (tx' & Htx' & Hsan). exists tx'.
        split; [by apply list_elem_of_further|done].
    + intros Hin. destruct (IH Hin) as (tx' & Htx' & Hsan). exists tx'.
      split; [by apply list_elem_of_further|done].
Qed.

Lemma valid_count_nonneg (count : option JSON) (n : Z) :
  valid_count count = Some n -> 0 <= n.
Proof.
  intros (q & _ & Hq & ->)%valid_count_Some.
  change 0 with (Qfloor 0). by apply Qfloor_resp_le.
Qed.

Lemma sanitize_transaction_well_formed tx t :
  sanitize_transaction DENOMINATIONS Date_getTime now tx = Some (Some t) ->
  well_formed DENOMINATIONS t.
Proof.
  intros Hsan. split_and!.
  - apply sanitize_transaction_id in Hsan. unfold raw_id in Hsan.
    destruct (get_field tx "id") as [[| | |i| |]|]; try done.
    destruct (decide (i = "")); [done|]. by injection Hsan as <-.
  - intros d c. rewrite (sanitize_transaction_breakdown _ _ _ tx t Hsan).
    destruct (decide _); [|by rewrite lookup_empty].
    destruct (get_field tx "breakdown") as [raw|]; [|by rewrite lookup_empty].
    destruct (is_object _); [|by rewrite lookup_empty].
    rewrite sanitize_breakdown_lookup. destruct (decide _); [|done].
    intros Hcount. split; [done|]. by apply valid_count_nonneg in Hcount.
  - intros Hupi. rewrite (sanitize_transaction_breakdown _ _ _ tx t Hsan).
    rewrite decide_False; [done|]. by rewrite Hupi.
Qed.

End SanitizedData.

Section LoadedState.

Variable DENOMINATIONS : list Z.
Variable JSON_parse : string -> option JSON.
Variable Date_getTime : JSON -> option (option Z).
Variable now : Z.

Implicit Types (d : Z) (storage : Storage) (st : State).

(** The two halves of the [try] of the load effect. *)
Lemma load_try_Some storage st :
  load_try DENOMINATIONS JSON_parse Date_getTime now storage = Some st ->
  exists finalTransactions,
    allTransactions st = sort_by_date finalTransactions
    /\ match storage !! "transactions" with
       | Some s =>
           if decide (s = "") then finalTransactions = []
           else exists parsed,
               JSON_parse s = Some parsed
               /\ match parsed with
                  | JArr items =>
                      exists migrated,
                        mapM (sanitize_transaction DENOMINATIONS Date_getTime now) items
                        = Some migrated
                        /\ finalTransactions
                           = omap (fun tx : option Transaction => tx) migrated
                  | _ => finalTransactions = []
                  end
       | None => finalTransactions = []
       end
    /\ match storage !! "vault" with
       | Some s =>
           if decide (s = "") then vault st = initializeVault DENOMINATIONS
           else exists parsed,
               JSON_parse s = Some parsed
               /\ vault st
                  = match parsed with
                    | JObj _ => sanitize_vault DENOMINATIONS parsed
                    | _ => initializeVault DENOMINATIONS
                    end
       | None => vault st = initializeVault DENOMINATIONS
       end.
Proof.
  unfold load_try. intros Htry.
  destruct (match storage !! "transactions" with Some _ => _ | None => _ end)
    as [finalTransactions|] eqn:Hlist; [|done]. simpl in Htry.
  destruct (match storage !! "vault" with Some _ => _ | None => _ end)
    as [finalVault|] eqn:Hvault; [|done]. simpl in Htry.
  injection Htry as <-. simpl. exists finalTransactions. split_and!; [done| |].
  - destruct (storage !! "transactions") as [s|]; [|by injection Hlist].
    destruct (decide (s = "")); [by injection Hlist|].
    destruct (JSON_parse s) as [parsed|]; [|done]. simpl in Hlist.
    exists parsed. split; [done|].
    destruct parsed as [| | | |items|fields]; try (by injection Hlist).
    destruct (mapM _ items) as [migrated|]; [|done]. simpl in Hlist.
    exists migrated. split; [done|]. by injection Hlist.
  - destruct (storage !! "vault") as [s|]; [|by injection Hvault].
    destruct (decide (s = "")); [by injection Hvault|].
    destruct (JSON_parse s) as [parsed|]; [|done]. simpl in Hvault.
    exists parsed. split; [done|]. by injection Hvault.
Qed.

(** The [try] returns exactly when neither [JSON.parse] nor [new Date]
    throws. *)
Lemma load_try_readable storage :
  is_Some (load_try DENOMINATIONS JSON_parse Date_getTime now storage)
  <-> transactions_readable JSON_parse Date_getTime storage
      /\ blob_readable JSON_parse storage "vault".
Proof.
  assert (forall (T : option (list Transaction)) (V : option NoteCounts),
    is_Some (finalTransactions ← T; finalVault ← V;
             Some {| allTransactions := sort_by_date finalTransactions;
                     vault := finalVault |})
    <-> is_Some T /\ is_Some V) as Hboth.
  { intros [?|] [?|]; simpl; split; try (by intros [[? ?] [? ?]]);
      try (by intros [? ?]); intros _; split; by eexists. }
  unfold load_try. rewrite Hboth.
  unfold transactions_readable, blob_readable.
  apply both_iff.
  - destruct (storage !! "transactions") as [s|]; [|split; [done|by eexists]].
    destruct (decide (s = "")) as [->|Hne]; [split; [by left|by eexists]|].
    destruct (JSON_parse s) as [parsed|]; simpl.
    + split.
      * intros Hsome. right. exists parsed. split; [done|].
        destruct parsed as [| | | |items|fields]; try done.
        apply (proj1 (migration_returns DENOMINATIONS Date_getTime now items)).
        destruct (mapM _ items) as [migrated|]; [by eexists|].
        by destruct Hsome.
      * intros [?|(parsed' & [= <-] & Hall)]; [done|].
        destruct parsed as [| | | |items|fields]; try by eexists.
        apply (proj2 (migration_returns DENOMINATIONS Date_getTime now items))
          in Hall as [migrated ->].
        by eexists.
    + split; [by intros [? ?]|]. by intros [?|(? & ? & _)].
  - destruct (storage !! "vault") as [s|]; [|split; [done|by eexists]].
    destruct (decide (s = "")) as [->|Hne]; [split; [by left|by eexists]|].
    destruct (JSON_parse s) as [parsed|]; simpl.
    + split; [intros _; right|intros _]; by eexists.
    + split; [by intros [? ?]|]. by intros [?|[? ?]].
Qed.

(** X9. The load effect discards an entry for its identifier alone: when
    the transaction blob parses and no date makes [new Date] throw, the
    identifiers of the list it sets are those of the entries of the array
    whose [id] is a non-empty string, one record for each such entry,
    whatever their other fields hold. A blob that is not an array gives
    the empty list, and so does an array with an entry, kept for its
    [id], on whose date [new Date] throws: the effect then resets the
    state. *)
Theorem X9_load_keeps_entries_with_an_id storage s parsed :
  storage !! "transactions" = Some s -> s <> "" ->
  JSON_parse s = Some parsed ->
  blob_readable JSON_parse storage "vault" ->
  id <$> allTransactions
           (load DENOMINATIONS JSON_parse Date_getTime now storage).1.1
  ≡ₚ match parsed with
     | JArr items =>
         if decide (Exists (date_throws Date_getTime) items) then []
         else omap raw_id items
     | _ => []
     end.
Proof.
  intros Hs Hne Hparse Hvault. unfold load.
  destruct (load_try _ _ _ _ storage) as [st|] eqn:Htry.
  - simpl. apply load_try_Some in Htry as (final & -> & Hfinal & _).
    rewrite Hs, decide_False in Hfinal by done.
    destruct Hfinal as (parsed' & Hparse' & Hfinal).
    rewrite Hparse in Hparse'. injection Hparse' as <-.
    rewrite sort_by_date_perm.
    destruct parsed as [| | | |items|fields]; try (by rewrite Hfinal).
    destruct Hfinal as (migrated & Hmigrated & ->).
    rewrite decide_False;
      [by rewrite (ids_of_sanitized DENOMINATIONS Date_getTime now items migrated)|].
    apply Forall_not_Exists.
    apply (proj1 (migration_returns DENOMINATIONS Date_getTime now items)).
    rewrite Hmigrated. by eexists.
  - simpl. destruct parsed as [| | | |items|fields]; try done.
    destruct (decide _) as [|Hnone]; [done|]. exfalso.
    assert (is_Some (load_try DENOMINATIONS JSON_parse Date_getTime now storage))
      as [? Hsome]; [|congruence].
    apply load_try_readable. split; [|done].
    unfold transactions_readable. rewrite Hs. right. exists (JArr items).
    split; [done|]. by apply not_Exists_Forall; [apply _|].
Qed.

(** X10. Every record the load effect sets is well formed, whatever the
    storage holds: its identifier is not empty, its breakdown has
    configured denominations only, with counts that are not negative, and
    is empty when the record is not cash. *)
Theorem X10_loaded_records_are_well_formed storage :
  Forall (well_formed DENOMINATIONS)
    (allTransactions (load DENOMINATIONS JSON_parse Date_getTime now storage).1.1).
Proof.
  unfold load. destruct (load_try _ _ _ _ storage) as [st|] eqn:Htry;
    [|constructor].
  simpl. apply load_try_Some in Htry as (final & -> & Hfinal & _).
  apply Forall_forall. intros t Ht. rewrite elem_of_sort_by_date in Ht.
  assert (final = []
          \/ exists items migrated,
               mapM (sanitize_transaction DENOMINATIONS Date_getTime now) items
               = Some migrated
               /\ final = omap (fun tx : option Transaction => tx) migrated)
    as [->|(items & migrated & Hmigrated & ->)].
  { destruct (storage !! "transactions") as [s|]; [|by left].
    destruct (decide (s = "")); [by left|].
    destruct Hfinal as (parsed & _ & Hfinal).
    destruct parsed as [| | | |items|fields]; try (by left).
    destruct Hfinal as (migrated & ? & ?). right. by exists items, migrated. }
  - by apply elem_of_nil in Ht.
  - destruct (elem_of_sanitized DENOMINATIONS Date_getTime now items migrated t
                Hmigrated Ht)
      as (tx & _ & Htx).
    by apply (sanitize_transaction_well_formed DENOMINATIONS Date_getTime now tx).
Qed.

Lemma initializeVault_well_formed :
  vault_well_formed DENOMINATIONS (initializeVault DENOMINATIONS).
Proof.
  split.
  - intros d. rewrite initializeVault_lookup.
    destruct (decide (d ∈ DENOMINATIONS)) as [Hd|Hd].
    + split; [done|]. intros _. by eexists.
    + split; [by intros [? ?]|done].
  - intros d c. rewrite initializeVault_lookup.
    destruct (decide _); [|done]. by intros [= <-].
Qed.

Lemma sanitize_vault_well_formed (parsed : JSON) :
  vault_well_formed DENOMINATIONS (sanitize_vault DENOMINATIONS parsed).
Proof.
  split.
  - intros d. rewrite sanitize_vault_lookup.
    destruct (decide (d ∈ DENOMINATIONS)) as [Hd|Hd].
    + split; [done|]. intros _. by eexists.
    + split; [by intros [? ?]|done].
  - intros d c. rewrite sanitize_vault_lookup.
    destruct (decide _); [|done].
    destruct (valid_count _) as [n|] eqn:Hn; simpl; intros [= <-]; [|done].
    by apply valid_count_nonneg in Hn.
Qed.

(** X11. The vault the load effect sets is well formed, whatever the
    storage holds: it has a key for each configured denomination and no
    other, and no count is negative. *)
Theorem X11_loaded_vault_is_well_formed storage :
  vault_well_formed DENOMINATIONS
    (vault (load DENOMINATIONS JSON_parse Date_getTime now storage).1.1).
Proof.
  unfold load. destruct (load_try _ _ _ _ storage) as [st|] eqn:Htry;
    [|apply initializeVault_well_formed].
  simpl. apply load_try_Some in Htry as (final & _ & _ & Hvault).
  destruct (storage !! "vault") as [s|];
    [|rewrite Hvault; apply initializeVault_well_formed].
  destruct (decide (s = ""));
    [rewrite Hvault; apply initializeVault_well_formed|].
  destruct Hvault as (parsed & _ & ->).
  destruct parsed;
    first [apply sanitize_vault_well_formed|apply initializeVault_well_formed].
Qed.


End LoadedState.

Section SaveAndLoad.

Variable DENOMINATIONS : list Z.
Variable JSON_parse : string -> option JSON.
Variable JSON_stringify : JSON -> string.
Variable Date_getTime : JSON -> option (option Z).
Variable now : Z.
Variable date_json : Z -> JSON.

Implicit Types (d c : Z) (v b : NoteCounts) (tx : Transaction) (st : State)
  (storage : Storage).

Lemma get_index_vault_to_json_absent v d :
  v !! d = None -> get_index (vault_to_json v) d = None.
Proof.
  intros Hv. simpl. apply obj_get_absent.
  intros ((k & x) & Hk & Hin)%list_elem_of_fmap. simpl in Hk.
  apply list_elem_of_fmap in Hin as ((d' & c') & [= -> ->] & Hin).
  apply (inj pretty) in Hk as <-. apply elem_of_map_to_list in Hin. congruence.
Qed.

Lemma valid_count_of_count c :
  0 <= c -> valid_count (Some (JNum (Finite (inject_Z c)))) = Some c.
Proof.
  intros Hc. unfold valid_count.
  destruct (Qle_bool 0 (inject_Z c)) eqn:Hle; [by rewrite Qfloor_Z|].
  assert (Qle_bool 0 (inject_Z c) = true); [|congruence].
  apply Qle_bool_iff. unfold Qle. simpl. lia.
Qed.

(** A breakdown of configured denominations and counts that are not
    negative is read back from the object it is saved as. *)
Lemma sanitize_breakdown_saved b :
  (forall d c, b !! d = Some c -> d ∈ DENOMINATIONS /\ 0 <= c) ->
  sanitize_breakdown DENOMINATIONS (vault_to_json b) = b.
Proof.
  intros Hb. apply map_eq. intros d. rewrite sanitize_breakdown_lookup.
  destruct (b !! d) as [c|] eqn:Hd.
  - destruct (Hb d c Hd) as [HD Hc]. rewrite decide_True by done.
    rewrite (get_index_vault_to_json b d c) by done. by apply valid_count_of_count.
  - rewrite get_index_vault_to_json_absent by done. by destruct (decide _).
Qed.

Lemma sanitize_vault_saved v :
  vault_well_formed DENOMINATIONS v ->
  sanitize_vault DENOMINATIONS (vault_to_json v) = v.
Proof.
  intros [Hkeys Hcounts]. apply map_eq. intros d. rewrite sanitize_vault_lookup.
  destruct (decide (d ∈ DENOMINATIONS)) as [Hd|Hd].
  - destruct (proj2 (Hkeys d) Hd) as [c Hc]. rewrite Hc.
    rewrite (get_index_vault_to_json v d c) by done.
    rewrite valid_count_of_count; [done|]. by apply (Hcounts d).
  - destruct (v !! d) as [c|] eqn:Hc; [|done].
    exfalso. apply Hd, Hkeys. by eexists.
Qed.

Lemma saved_fields tx :
  let saved := JObj (transaction_fields date_json tx) in
  get_field saved "id" = Some (JStr (id tx))
  /\ get_field saved "type" = Some (type_to_json (type tx))
  /\ get_field saved "paymentMethod"
     = Some (paymentMethod_to_json (paymentMethod tx))
  /\ get_field saved "amount" = Some (JNum (Finite (amount tx)))
  /\ get_field saved "date" = Some (date_json (date tx))
  /\ get_field saved "location" = Some (JStr (location tx))
  /\ get_field saved "company" = Some (JStr (company tx))
  /\ get_field saved "person" = Some (JStr (person tx))
  /\ get_field saved "recordedBy" = Some (JStr (recordedBy tx))
  /\ get_field saved "notes" = Some (JStr (notes tx))
  /\ get_field saved "breakdown" = Some (vault_to_json (breakdown tx)).
Proof. repeat split; reflexivity. Qed.

Lemma sanitize_saved_transaction tx :
  Date_getTime (date_json (date tx)) = Some (Some (date tx)) ->
  truthy (Some (date_json (date tx))) = true ->
  well_formed DENOMINATIONS tx ->
  sanitize_transaction DENOMINATIONS Date_getTime now
    (transaction_to_json date_json tx) = Some (Some tx).
Proof.
  intros Hdate Htruthy (Hid & Hcounts & Hupi).
  destruct (saved_fields tx)
    as (Fid & Ftype & Fpm & Famount & Fdate & Floc & Fco & Fpe & Frb & Fno & Fbd).
  unfold sanitize_transaction, migrated_date, transaction_to_json.
  cbv beta iota zeta.
  rewrite Fid, Ftype, Fpm, Famount, Fdate, Floc, Fco, Fpe, Frb, Fno, Fbd.
  rewrite decide_False by done. rewrite Htruthy, Hdate. simpl.
  destruct tx as [i dt [ty pm am lo co pe rb no bd]]. simpl in *.
  f_equal. f_equal. f_equal. f_equal.
  - by destruct ty.
  - by destruct pm.
  - destruct pm; simpl.
    + by apply sanitize_breakdown_saved.
    + symmetry. by apply Hupi.
Qed.

(** X13. A record saved and read again comes back unchanged exactly
    when it is well formed: when its date is a string that [new Date]
    reads back, sanitizing the object a record is saved as gives the very
    record if and only if its identifier is not empty and its breakdown
    has configured denominations only, with counts that are not negative,
    and is empty unless the record is cash. *)
Theorem X13_saved_record_reads_back_iff_well_formed tx :
  Date_getTime (date_json (date tx)) = Some (Some (date tx)) ->
  truthy (Some (date_json (date tx))) = true ->
  sanitize_transaction DENOMINATIONS Date_getTime now
    (transaction_to_json date_json tx) = Some (Some tx)
  <-> well_formed DENOMINATIONS tx.
Proof.
  intros Hdate Htruthy. split.
  - apply sanitize_transaction_well_formed.
  - by apply sanitize_saved_transaction.
Qed.

Lemma sanitize_saved_list (txs : list Transaction) :
  Forall (fun tx => Date_getTime (date_json (date tx)) = Some (Some (date tx))
                    /\ truthy (Some (date_json (date tx))) = true
                    /\ well_formed DENOMINATIONS tx) txs ->
  mapM (sanitize_transaction DENOMINATIONS Date_getTime now)
    (transaction_to_json date_json <$> txs) = Some (Some <$> txs).
Proof.
  intros Htxs. apply mapM_Some_2.
  induction Htxs as [|tx txs (Hdate & Htruthy & Hwf) Htxs IH]; [constructor|].
  rewrite !fmap_cons. constructor; [|exact IH].
  by apply sanitize_saved_transaction.
Qed.

Lemma omap_kept (txs : list Transaction) :
  omap (fun tx : option Transaction => tx) (Some <$> txs) = txs.
Proof.
  induction txs as [|tx txs IH]; [done|]. rewrite fmap_cons.
  change (omap ?f (?x :: ?l))
    with (match f x with Some y => y :: omap f l | None => omap f l end).
  by rewrite IH.
Qed.

(** X14. A state that is saved loads as itself. Let the list be sorted,
    its records well formed with dates that [new Date] reads back, and
    the vault hold a count that is not negative for each configured
    denomination and nothing else; let the two texts written be read
    back by [JSON.parse] as the values they were written from. Then the
    load effect sets the very state that was saved, leaves the storage as
    it is and writes nothing to the console. *)
Theorem X14_saved_state_loads_as_itself st storage :
  sorted_by_date (allTransactions st) ->
  Forall (fun tx => Date_getTime (date_json (date tx)) = Some (Some (date tx))
                    /\ truthy (Some (date_json (date tx))) = true
                    /\ well_formed DENOMINATIONS tx) (allTransactions st) ->
  vault_well_formed DENOMINATIONS (vault st) ->
  reads_back JSON_parse JSON_stringify
    (JArr (transaction_to_json date_json <$> allTransactions st)) ->
  reads_back JSON_parse JSON_stringify (vault_to_json (vault st)) ->
  let saved := persist JSON_stringify date_json st storage in
  load DENOMINATIONS JSON_parse Date_getTime now saved = (st, saved, []).
Proof.
  intros Hsorted Hrecords Hvault [Hne1 Hback1] [Hne2 Hback2]. simpl.
  unfold load, load_try, persist, persist_vault, persist_transactions.
  rewrite (lookup_insert_ne _ "vault" "transactions") by done.
  rewrite !lookup_insert_eq.
  rewrite decide_False by done. rewrite Hback1. simpl.
  rewrite decide_False by done. rewrite Hback2. simpl.
  rewrite sanitize_saved_list by done. simpl. rewrite omap_kept.
  rewrite sort_by_date_of_sorted by done.
  rewrite sanitize_vault_saved by done. by destruct st.
Qed.

End SaveAndLoad.

(** * Properties of the report *)

Section ReportFacts.

Implicit Types (l txs : list Transaction) (x tx : Transaction) (acc g : Groups)
  (k : string).

Lemma insert_oldest_first_perm x l : insert_oldest_first x l ≡ₚ x :: l.
Proof.
  induction l as [|y l IH]; simpl; [done|].
  destruct (decide (date x < date y)); [done|].
  rewrite IH. apply Permutation_swap.
Qed.

Lemma sort_oldest_first_perm l : sort_oldest_first l ≡ₚ l.
Proof.
  unfold sort_oldest_first.
  assert (forall pre : list Transaction,
    foldl (fun pre x => insert_oldest_first x pre) pre l ≡ₚ pre ++ l) as H.
  { induction l as [|x l IH]; intros pre; simpl.
    - by rewrite app_nil_r.
    - rewrite IH, insert_oldest_first_perm. simpl. apply Permutation_middle. }
  apply H.
Qed.

Lemma insert_oldest_first_sorted x l :
  StronglySorted (fun a b : Transaction => date a <= date b) l ->
  StronglySorted (fun a b : Transaction => date a <= date b)
    (insert_oldest_first x l).
Proof.
  induction 1 as [|y l Hl IH Hy]; simpl.
  - repeat constructor.
  - destruct (decide (date x < date y)) as [Hlt|Hge].
    + constructor; [by constructor|].
      constructor; [lia|].
      eapply Forall_impl; [exact Hy|]. simpl. intros z Hz. lia.
    + constructor; [done|].
      rewrite insert_oldest_first_perm. constructor; [lia|done].
Qed.

Lemma sort_oldest_first_sorted l : sorted_oldest_first (sort_oldest_first l).
Proof.
  apply StronglySorted_Sorted. unfold sort_oldest_first.
  assert (forall pre : list Transaction,
    StronglySorted (fun a b : Transaction => date a <= date b) pre ->
    StronglySorted (fun a b : Transaction => date a <= date b)
      (foldl (fun pre x => insert_oldest_first x pre) pre l)) as H.
  { induction l as [|x l IH]; intros pre Hpre; simpl; [done|].
    by apply IH, insert_oldest_first_sorted. }
  apply H. constructor.
Qed.

Lemma reportData_null l : reportData l = Returns None <-> l = [].
Proof.
  split; [|by intros ->]. destruct l as [|x l]; [done|].
  unfold reportData. by destruct (creditsByPerson _).
Qed.

(** X15. The report of a company covers exactly the visible
    transactions of that company, a record without company counting
    under [NA]; it lists them oldest first; and there is no report, only
    the notice that nothing was found, exactly when no transaction bears
    the company's name. *)
Theorem X15_report_covers_the_company (transactions : list Transaction)
    (decodedCompanyName : string) :
  companyTransactions transactions decodedCompanyName
    ≡ₚ filter (fun tx : Transaction =>
                 or_else (company tx) "NA" = decodedCompanyName) transactions
  /\ sorted_oldest_first (companyTransactions transactions decodedCompanyName)
  /\ (reportData (companyTransactions transactions decodedCompanyName)
        = Returns None
      <-> forall tx, tx ∈ transactions ->
            or_else (company tx) "NA" <> decodedCompanyName).
Proof.
  unfold companyTransactions. split_and!.
  - apply sort_oldest_first_perm.
  - apply sort_oldest_first_sorted.
  - rewrite reportData_null. split.
    + intros Hnil tx Htx Hco.
      assert (tx ∈ sort_oldest_first
                (filter (fun tx : Transaction =>
                           or_else (company tx) "NA" = decodedCompanyName)
                   transactions)) as Hin.
      { rewrite sort_oldest_first_perm. by apply list_elem_of_filter. }
      rewrite Hnil in Hin. by apply elem_of_nil in Hin.
    + intros Hnone. rewrite filter_none; [done|].
      intros tx Htx Hco. by apply (Hnone tx).
Qed.

Lemma push_to_absent k tx acc :
  k ∉ acc.*1 -> push_to k tx acc = None.
Proof.
  induction acc as [|[k' txs'] acc IH]; simpl; [done|].
  intros Hk. rewrite not_elem_of_cons in Hk. destruct Hk as [Hne Hk].
  rewrite decide_False by done. by rewrite IH.
Qed.

Lemma push_to_present k tx acc :
  NoDup acc.*1 -> k ∈ acc.*1 ->
  exists acc',
    push_to k tx acc = Some acc' /\ acc'.*1 = acc.*1
    /\ forall k' txs', (k', txs') ∈ acc' ->
         (k' <> k /\ (k', txs') ∈ acc)
         \/ (k' = k /\ exists txs0, (k, txs0) ∈ acc /\ txs' = txs0 ++ [tx]).
Proof.
  induction acc as [|[k0 txs0] acc IH]; simpl.
  - intros _ Hk. by apply elem_of_nil in Hk.
  - intros [Hk0 Hnodup]%NoDup_cons Hk.
    destruct (decide (k0 = k)) as [->|Hne].
    + eexists. split_and!; [done..|].
      intros k' txs' [[= -> ->]|Hin]%elem_of_cons.
      * right. split; [done|]. exists txs0. split; [apply list_elem_of_here|done].
      * left. split; [|by apply list_elem_of_further].
        intros ->. apply Hk0. apply list_elem_of_fmap. by exists (k, txs').
    + apply elem_of_cons in Hk as [?|Hk]; [congruence|].
      destruct (IH Hnodup Hk) as (acc' & -> & Hkeys & Hin').
      eexists. split_and!; [done|rewrite !fmap_cons; by f_equal|].
      intros k' txs' [[= -> ->]|Hin]%elem_of_cons.
      * left. split; [done|apply list_elem_of_here].
      * destruct (Hin' k' txs' Hin) as [[? ?]|(-> & txs1 & ? & ->)].
        -- left. split; [done|by apply list_elem_of_further].
        -- right. split; [done|]. exists txs1.
           split; [by apply list_elem_of_further|done].
Qed.

Lemma filter_name_snoc_other k tx l :
  customer_name tx <> k ->
  filter (fun t => customer_name t = k) (l ++ [tx])
  = filter (fun t => customer_name t = k) l.
Proof.
  intros Hne. rewrite filter_app, filter_cons_False by done.
  by rewrite filter_nil, app_nil_r.
Qed.

Lemma filter_name_snoc_same tx l :
  filter (fun t => customer_name t = customer_name tx) (l ++ [tx])
  = filter (fun t => customer_name t = customer_name tx) l ++ [tx].
Proof. rewrite filter_app, filter_cons_True by done. by rewrite filter_nil. Qed.

(** One turn of the grouping: it throws on an inherited name, which no
    group bears, and otherwise keeps the credits sorted by customer. *)
Lemma group_step_grouped l acc tx :
  grouped l acc ->
  (customer_name tx ∈ Object_prototype_names
   /\ group_step (Returns acc) tx = TypeError)
  \/ ((customer_name tx ∉ Object_prototype_names)
      /\ exists acc', group_step (Returns acc) tx = Returns acc'
                      /\ grouped (l ++ [tx]) acc').
Proof.
  intros (Hnodup & Hgroups & Hnames). unfold group_step.
  fold (customer_name tx). set (k := customer_name tx).
  destruct (decide (k ∈ acc.*1)) as [Hk|Hk].
  - right.
    assert (k ∉ Object_prototype_names) as Hproto.
    { apply list_elem_of_fmap in Hk as ([k' txs'] & -> & Hin).
      by apply (Hgroups k' txs'). }
    split; [done|].
    destruct (push_to_present k tx acc Hnodup Hk) as (acc' & -> & Hkeys & Hin').
    exists acc'. split; [done|]. split_and!.
    + by rewrite Hkeys.
    + intros k' txs' Hin. destruct (Hin' k' txs' Hin) as [[Hne Hold]|(-> & txs0 & Hold & ->)].
      * destruct (Hgroups k' txs' Hold) as (? & ? & ->). split_and!; [done..|].
        by rewrite filter_name_snoc_other.
      * destruct (Hgroups k txs0 Hold) as (? & ? & ->). split_and!; [done| |].
        -- by destruct (filter _ l).
        -- unfold k. by rewrite filter_name_snoc_same.
    + rewrite Hkeys. intros t [Ht| ->%list_elem_of_singleton]%elem_of_app; [|done].
      by apply Hnames.
  - rewrite push_to_absent by done.
    destruct (decide (k ∈ Object_prototype_names)) as [Hproto|Hproto];
      [by left|right].
    split; [done|]. eexists. split; [done|].
    assert (filter (fun t => customer_name t = k) l = []) as Hnone.
    { apply filter_none. intros t Ht Hname. apply Hk. rewrite <- Hname.
      by apply Hnames. }
    split_and!.
    + rewrite fmap_app. apply NoDup_app. split_and!; [done| |apply NoDup_singleton].
      intros k' Hk' ->%list_elem_of_singleton. by apply Hk.
    + intros k' txs' [Hold|[= -> ->]%list_elem_of_singleton]%elem_of_app.
      * destruct (Hgroups k' txs' Hold) as (? & ? & ->). split_and!; [done..|].
        rewrite filter_name_snoc_other; [done|].
        intros Heq. apply Hk. fold k in Heq. rewrite Heq.
        apply list_elem_of_fmap. by exists (k', filter (fun t => customer_name t = k') l).
      * split_and!; [done..|]. unfold k.
        rewrite filter_name_snoc_same. fold k. by rewrite Hnone.
    + rewrite fmap_app. intros t [Ht| ->%list_elem_of_singleton]%elem_of_app.
      * apply elem_of_app. left. by apply Hnames.
      * apply elem_of_app. right. apply list_elem_of_here.
Qed.

Lemma foldl_group_step_thrown l :
  foldl group_step TypeError l = TypeError.
Proof. by induction l. Qed.

Lemma foldl_group_step_grouped l done_ acc :
  grouped done_ acc ->
  match foldl group_step (Returns acc) l with
  | TypeError => exists tx, tx ∈ l /\ customer_name tx ∈ Object_prototype_names
  | Returns g =>
      grouped (done_ ++ l) g
      /\ forall tx, tx ∈ l -> customer_name tx ∉ Object_prototype_names
  end.
Proof.
  revert done_ acc. induction l as [|tx l IH]; intros done_ acc Hacc.
  - simpl. rewrite app_nil_r. split; [done|].
    intros tx Htx. by apply elem_of_nil in Htx.
  - change (foldl group_step (Returns acc) (tx :: l))
      with (foldl group_step (group_step (Returns acc) tx) l).
    destruct (group_step_grouped done_ acc tx Hacc)
      as [[Hproto ->]|(Hproto & acc' & -> & Hacc')].
    + rewrite foldl_group_step_thrown. exists tx. split; [apply list_elem_of_here|done].
    + specialize (IH (done_ ++ [tx]) acc' Hacc').
      destruct (foldl group_step (Returns acc') l) as [g|].
      * destruct IH as [Hg Hl]. rewrite <- app_assoc in Hg. split; [done|].
        intros t [->|Ht]%elem_of_cons; [done|by apply Hl].
      * destruct IH as (t & Ht & Hp). exists t. split; [by apply list_elem_of_further|done].
Qed.

Lemma grouped_nil : grouped [] [].
Proof.
  split_and!; [constructor| |]; intros *; intros Hin; by apply elem_of_nil in Hin.
Qed.

Lemma insert_by_index_perm (n : Z) (e : string * list Transaction) g :
  insert_by_index n e g ≡ₚ e :: g.
Proof.
  induction g as [|h g IH]; simpl; [done|].
  destruct (array_index h.1); [|done].
  destruct (decide (n < _)); [done|]. rewrite IH. apply Permutation_swap.
Qed.

(** [Object.entries] gives every own property once. *)
Lemma entries_perm g : entries g ≡ₚ g.
Proof.
  unfold entries.
  assert (forall pre : Groups,
    foldl (fun acc e => match array_index e.1 with
                        | Some n => insert_by_index n e acc
                        | None => acc
                        end) pre g
    ++ filter (fun e => array_index e.1 = None) g ≡ₚ pre ++ g) as H.
  { induction g as [|e g IH]; intros pre; simpl.
    - by rewrite filter_nil.
    - destruct (array_index e.1) as [n|] eqn:He.
      + rewrite filter_cons_False by congruence.
        rewrite IH, insert_by_index_perm. simpl. apply Permutation_middle.
      + rewrite filter_cons_True by done.
        rewrite <- Permutation_middle, IH. apply Permutation_middle. }
  apply (H []).
Qed.

Lemma reportData_returns l r :
  reportData l = Returns (Some r) ->
  exists groups,
    creditsByPerson (filter (fun tx : Transaction => type tx = credit) l)
    = Returns groups
    /\ customers r = customer_of <$> entries groups
    /\ debitAmounts r
       = amounts (filter (fun tx : Transaction => type tx = debit) l)
    /\ totalCredit r
       = sum_amounts (filter (fun tx : Transaction => type tx = credit) l)
    /\ totalDebit r = foldl Qplus 0%Q (debitAmounts r)
    /\ closingBalance r = (totalCredit r - totalDebit r)%Q.
Proof.
  unfold reportData. destruct l as [|x l]; [done|].
  destruct (creditsByPerson _) as [groups|]; [|done].
  intros [= <-]. by exists groups.
Qed.

(** X16. Each row of the report holds the credits of one customer and
    of no one else: the rows bear distinct names, every credit of the
    company is under the row of its person ([N/A] for none), and a row
    lists the cash amounts and the UPI amounts of its customer's credits,
    oldest first, with their sum; the debits are listed apart. *)
Theorem X16_report_rows_are_the_customers l r :
  reportData l = Returns (Some r) ->
  let credits := filter (fun tx : Transaction => type tx = credit) l in
  NoDup (name <$> customers r)
  /\ (forall tx, tx ∈ credits -> customer_name tx ∈ name <$> customers r)
  /\ Forall (fun c =>
       let own := filter (fun tx => customer_name tx = name c) credits in
       own <> []
       /\ customer_cash c
          = amounts (filter (fun tx : Transaction => paymentMethod tx = cash) own)
       /\ customer_upi c
          = amounts (filter (fun tx : Transaction => paymentMethod tx = upi) own)
       /\ total c = sum_amounts own) (customers r)
  /\ debitAmounts r
     = amounts (filter (fun tx : Transaction => type tx = debit) l).
Proof.
  intros (groups & Hgroups & -> & Hdebits & _)%reportData_returns. simpl.
  pose proof (foldl_group_step_grouped
                (filter (fun tx : Transaction => type tx = credit) l) [] []
                grouped_nil) as Hfold.
  unfold creditsByPerson in Hgroups. rewrite Hgroups in Hfold.
  destruct Hfold as [(Hnodup & Hown & Hnames) _]. simpl in *.
  assert (name <$> (customer_of <$> entries groups) = (entries groups).*1) as Hkeys.
  { generalize (entries groups). intros g.
    induction g as [|[k txs] g IH]; [done|]. rewrite !fmap_cons. by f_equal. }
  rewrite Hkeys. split_and!; [| | |done].
  - by rewrite entries_perm.
  - intros tx Htx. rewrite entries_perm. by apply Hnames.
  - apply Forall_forall. intros c ([k txs] & -> & Hin)%list_elem_of_fmap.
    rewrite entries_perm in Hin. destruct (Hown k txs Hin) as (_ & Hne & Htxs).
    simpl. by rewrite <- Htxs.
Qed.

(** X17. The report cannot be built for a company one of whose credits
    is in the name of a property every object inherits ([constructor],
    [toString], ...): grouping the credits then throws a [TypeError], and
    it throws in no other case. *)
Theorem X17_report_throws_on_inherited_names l :
  l <> [] ->
  reportData l = TypeError
  <-> exists tx, tx ∈ l /\ type tx = credit
                 /\ customer_name tx ∈ Object_prototype_names.
Proof.
  intros Hl. unfold reportData. destruct l as [|x l]; [done|].
  pose proof (foldl_group_step_grouped
                (filter (fun tx : Transaction => type tx = credit) (x :: l)) [] []
                grouped_nil) as Hfold.
  unfold creditsByPerson.
  destruct (foldl group_step (Returns [])
              (filter (fun tx : Transaction => type tx = credit) (x :: l)))
    as [groups|].
  - split; [done|]. intros (tx & Htx & Hcredit & Hproto).
    destruct Hfold as [_ Hnone]. exfalso. apply (Hnone tx); [|done].
    by apply list_elem_of_filter.
  - split; [|done]. intros _. destruct Hfold as (tx & [? ?]%list_elem_of_filter & ?).
    by exists tx.
Qed.

End ReportFacts.

Section ReportSums.

Implicit Types (l txs : list Transaction) (tx : Transaction) (g : Groups)
  (qs : list Q).

Lemma sum_Q_app qs1 qs2 : (sum_Q (qs1 ++ qs2) == sum_Q qs1 + sum_Q qs2)%Q.
Proof.
  induction qs1 as [|q qs1 IH]; simpl; [ring|]. rewrite IH. ring.
Qed.

Lemma sum_Q_perm qs1 qs2 : qs1 ≡ₚ qs2 -> (sum_Q qs1 == sum_Q qs2)%Q.
Proof.
  induction 1 as [|q qs1 qs2 _ IH|q1 q2 qs| qs1 qs2 qs3 _ IH1 _ IH2]; simpl.
  - reflexivity.
  - by rewrite IH.
  - ring.
  - by rewrite IH1.
Qed.

Lemma foldl_Qplus (a : Q) qs : (foldl Qplus a qs == a + sum_Q qs)%Q.
Proof.
  revert a. induction qs as [|q qs IH]; intros a; simpl; [ring|].
  rewrite IH. ring.
Qed.

Lemma sum_amounts_sum_Q txs : (sum_amounts txs == sum_Q (amounts txs))%Q.
Proof.
  unfold sum_amounts.
  assert (forall a : Q,
    (foldl (fun sum (tx : Transaction) => sum + amount tx) a txs
     == a + sum_Q (amounts txs))%Q) as H.
  { induction txs as [|tx txs IH]; intros a; simpl; [ring|].
    rewrite IH. ring. }
  rewrite H. ring.
Qed.

Lemma amounts_by_method txs :
  amounts (filter (fun tx : Transaction => paymentMethod tx = cash) txs)
  ++ amounts (filter (fun tx : Transaction => paymentMethod tx = upi) txs)
  ≡ₚ amounts txs.
Proof.
  unfold amounts. induction txs as [|tx txs IH]; [done|].
  rewrite !filter_cons. destruct (paymentMethod tx) eqn:Hpm.
  - rewrite decide_True, decide_False by done. rewrite !fmap_cons.
    apply Permutation_skip, IH.
  - rewrite decide_False, decide_True by done. rewrite !fmap_cons.
    symmetry. etrans; [|apply Permutation_middle].
    apply Permutation_skip. symmetry. apply IH.
Qed.

Lemma push_to_members k tx g g' :
  push_to k tx g = Some g' -> concat g'.*2 ≡ₚ tx :: concat g.*2.
Proof.
  revert g'. induction g as [|[k0 txs0] g IH]; intros g'; simpl; [done|].
  destruct (decide (k0 = k)).
  - intros [= <-]. simpl. rewrite <- app_assoc. simpl.
    symmetry. apply Permutation_middle.
  - destruct (push_to k tx g) as [g0|]; [|done]. simpl. intros [= <-]. simpl.
    rewrite (IH g0 eq_refl). symmetry. apply Permutation_middle.
Qed.

Lemma creditsByPerson_members l g0 g :
  foldl group_step (Returns g0) l = Returns g ->
  concat g.*2 ≡ₚ concat g0.*2 ++ l.
Proof.
  revert g0. induction l as [|tx l IH]; intros g0.
  - simpl. intros [= <-]. by rewrite app_nil_r.
  - change (foldl group_step (Returns g0) (tx :: l))
      with (foldl group_step (group_step (Returns g0) tx) l).
    destruct (group_step (Returns g0) tx) as [g1|] eqn:Hstep;
      [|by rewrite foldl_group_step_thrown].
    intros Hfold. rewrite (IH g1 Hfold). rewrite <- Permutation_middle.
    apply (Permutation_app_tail l (l' := tx :: concat g0.*2)).
    unfold group_step in Hstep.
    destruct (push_to _ tx g0) as [g2|] eqn:Hpush.
    + injection Hstep as <-. by apply (push_to_members _ _ _ _ Hpush).
    + destruct (decide _); [done|]. injection Hstep as <-.
      rewrite fmap_app, concat_app. simpl.
      symmetry. apply Permutation_cons_append.
Qed.

Lemma sum_of_totals g :
  (sum_Q (total <$> (customer_of <$> g)) == sum_Q (amounts (concat g.*2)))%Q.
Proof.
  induction g as [|[k txs] g IH]; [reflexivity|].
  rewrite !fmap_cons. simpl. unfold amounts in *.
  rewrite fmap_app, sum_Q_app, IH, sum_amounts_sum_Q. reflexivity.
Qed.

Lemma sum_of_signed_amounts l :
  (sum_Q ((fun tx => signed_amount tx) <$> l)
   == sum_Q (amounts (filter (fun tx : Transaction => type tx = credit) l))
      - sum_Q (amounts (filter (fun tx : Transaction => type tx = debit) l)))%Q.
Proof.
  assert (forall (q : Q) qs, sum_Q (q :: qs) = (q + sum_Q qs)%Q) as Hcons
    by reflexivity.
  unfold amounts. induction l as [|tx l IH]; [by vm_compute|].
  rewrite fmap_cons, !filter_cons, Hcons, IH. unfold signed_amount.
  destruct (type tx).
  - rewrite decide_True, decide_False by done. rewrite fmap_cons, Hcons. ring.
  - rewrite decide_False, decide_True by done. rewrite fmap_cons, Hcons. ring.
Qed.

(** X18. The figures of the report add up, amounts being added
    exactly: the total credit is the sum of the totals of the rows, the
    total of a row is the sum of its cash amounts and its UPI amounts,
    and the closing balance is the sum over the company's transactions
    of their amounts, credits counted positive and debits negative. *)
Theorem X18_report_figures_add_up l r :
  reportData l = Returns (Some r) ->
  (totalCredit r == sum_Q (total <$> customers r))%Q
  /\ Forall (fun c =>
       (total c == sum_Q (customer_cash c) + sum_Q (customer_upi c))%Q)
       (customers r)
  /\ (closingBalance r == sum_Q ((fun tx => signed_amount tx) <$> l))%Q.
Proof.
  intros (groups & Hgroups & Hcustomers & Hdebits & Hcredit & Hdebit & Hclosing)
    %reportData_returns.
  split_and!.
  - rewrite Hcredit, Hcustomers, sum_amounts_sum_Q.
    rewrite (sum_Q_perm _ _ (fmap_Permutation total _ _
               (fmap_Permutation customer_of _ _ (entries_perm groups)))).
    rewrite sum_of_totals. apply sum_Q_perm. unfold amounts.
    apply fmap_Permutation. symmetry.
    by apply (creditsByPerson_members _ [] groups Hgroups).
  - rewrite Hcustomers. apply Forall_forall.
    intros c ([k txs] & -> & _)%list_elem_of_fmap. simpl.
    rewrite sum_amounts_sum_Q, <- sum_Q_app.
    apply sum_Q_perm. symmetry. apply amounts_by_method.
  - rewrite Hclosing, Hdebit, Hcredit, Hdebits.
    rewrite foldl_Qplus, sum_amounts_sum_Q, sum_of_signed_amounts. ring.
Qed.

End ReportSums.

(** * Worked instances of the further properties *)

(** Ali turns his credit of a note of 500 into a debit: the vault goes
    from one note to one note short. *)
Lemma X2_witness_credit_turned_debit :
  count_or_0
    (vault (updateTransaction rupee_notes (Some ali) the_credit_as_debit
              after_one_credit).1) 500 = -1.
Proof.
  assert (find_by_id (id the_credit_as_debit)
            (visible (Some ali) (allTransactions after_one_credit))
          = Some the_credit) as Hfind by (by vm_compute).
  rewrite (proj1 (X2_update_moves_configured_counts_only rupee_notes (Some ali)
                    the_credit_as_debit the_credit after_one_credit Hfind)
             500 ltac:(compute_done) ltac:(by vm_compute)).
  by vm_compute.
Defined.

(** Ali records a second entry and deletes it again. *)
Lemma X3_witness_second_entry_undone :
  allTransactions
    (deleteTransactionsByIds (Some ali) ["txn_2"]
       (addTransaction "txn_2" 2000 (one_note_of_500 debit "Ali") after_one_credit))
  = allTransactions after_one_credit
  /\ same_counts
       (vault (deleteTransactionsByIds (Some ali) ["txn_2"]
                 (addTransaction "txn_2" 2000 (one_note_of_500 debit "Ali")
                    after_one_credit)))
       (vault after_one_credit).
Proof.
  destruct (X3_add_then_delete_is_undone (Some ali) after_one_credit "txn_2" 2000
              (one_note_of_500 debit "Ali") ltac:(compute_done) ltac:(compute_done)
              ltac:(compute_done)) as [Hlist Hvault].
  split; [exact Hlist|]. apply Hvault, after_one_credit_room.
Defined.

(** Deleting an identifier nobody was given. *)
Lemma X4_witness_unknown_id :
  deleteTransactionsByIds (Some ali) ["txn_404"] after_one_credit
  = after_one_credit.
Proof.
  apply (X4_delete_of_absent_ids_is_identity (Some ali) ["txn_404"]
           after_one_credit).
  apply Forall_forall. compute_done.
Defined.

(** Ali deletes his credit and then an identifier nobody was given, or
    both at once: the vault comes out the same. *)
Lemma X5_witness_two_deletes :
  same_counts
    (vault (deleteTransactionsByIds (Some ali) ["txn_404"]
              (deleteTransactionsByIds (Some ali) ["txn_1"] after_one_credit)))
    (vault (deleteTransactionsByIds (Some ali) ["txn_1"; "txn_404"]
              after_one_credit)).
Proof.
  apply (X5_delete_twice_is_delete_once (Some ali) ["txn_1"] ["txn_404"]
           after_one_credit).
  intros d. pose proof (after_one_credit_count d).
  pose proof (one_note_impact d credit "Ali").
  change (visible (Some ali) (allTransactions after_one_credit)) with [the_credit].
  change (turnover d [the_credit])
    with (Z.abs (impact d (one_note_of_500 credit "Ali")) + 0).
  lia.
Defined.

(** The session without cash leaves the zero vault as it is. *)
Lemma X6_witness_session_without_cash :
  vault (run rupee_notes session_without_cash (initialState rupee_notes)).1
  = initializeVault rupee_notes.
Proof.
  apply (X6_upi_never_moves_the_vault rupee_notes session_without_cash
           (initialState rupee_notes)).
  - constructor.
  - repeat constructor.
Defined.

(** Ali edits his credit without touching its date. *)
Lemma X7_witness_edit_in_place :
  allTransactions
    (updateTransaction rupee_notes (Some ali) the_credit_as_debit
       after_one_credit).1
  = [the_credit_as_debit].
Proof.
  rewrite (X7_update_with_same_date_keeps_order rupee_notes (Some ali)
             the_credit_as_debit after_one_credit).
  - by vm_compute.
  - compute_done.
  - apply (proj1 (Forall_forall
                    (fun tx : Transaction =>
                       id tx = id the_credit_as_debit ->
                       date tx = date the_credit_as_debit) _)).
    compute_done.
Defined.

(** The session of Ali is a session of his own. *)
Lemma X8_witness_session_of_ali :
  vault_is_derived rupee_notes
    (run rupee_notes session_of_ali (initialState rupee_notes)).1.
Proof.
  apply (X8_own_session_keeps_vault_derived rupee_notes ali session_of_ali).
  - repeat constructor.
  - compute_done.
  - apply (proj1 (Forall_forall
                    (fun d => session_turnover d session_of_ali <= 2 ^ 53) _)).
    compute_done.
Defined.

(** Of the two entries of the blob, the one whose [id] is a number is
    dropped and the other kept. *)
Lemma X9_witness_entry_with_a_bad_id :
  id <$> allTransactions
           (load rupee_notes JsonText.parse epoch_millis 0
              storage_with_a_bad_id).1.1
  ≡ₚ ["txn_1"].
Proof.
  apply (X9_load_keeps_entries_with_an_id rupee_notes JsonText.parse epoch_millis 0
           storage_with_a_bad_id (JsonText.stringify blob_with_a_bad_id)
           blob_with_a_bad_id).
  - apply lookup_singleton_eq.
  - by vm_compute.
  - by vm_compute.
  - by vm_compute.
Defined.


Lemma the_credit_well_formed : well_formed rupee_notes the_credit.
Proof.
  split_and!; [done| |done].
  intros d c Hd. change (breakdown the_credit) with ({[500 := 1]} : gmap Z Z) in Hd.
  apply lookup_singleton_Some in Hd as [<- <-]. split; [compute_done|lia].
Defined.

(** The credit of Ali comes back from the object it is saved as. *)
Lemma X13_witness_the_credit_reads_back :
  sanitize_transaction rupee_notes epoch_millis 0
    (transaction_to_json date_as_number the_credit) = Some (Some the_credit).
Proof.
  apply (X13_saved_record_reads_back_iff_well_formed rupee_notes epoch_millis 0
           date_as_number the_credit eq_refl eq_refl).
  apply the_credit_well_formed.
Defined.

Lemma after_one_credit_vault_well_formed :
  vault_well_formed rupee_notes (vault after_one_credit).
Proof.
  assert (forall d, vault after_one_credit !! d
                    = if decide (d = 500) then Some 1
                      else initializeVault rupee_notes !! d) as Hlookup.
  { intros d. unfold after_one_credit, addTransaction. simpl.
    rewrite add_to_vault_lookup by done. simpl.
    destruct (decide (d = 500)) as [->|Hne]; [by vm_compute|].
    by rewrite lookup_singleton_ne. }
  destruct (initializeVault_well_formed rupee_notes) as [Hkeys Hcounts]. split.
  - intros d. rewrite Hlookup. destruct (decide (d = 500)) as [->|Hne]; [|done].
    split; [intros _; compute_done|intros _; by eexists].
  - intros d c. rewrite Hlookup. destruct (decide (d = 500)).
    + intros [= <-]. lia.
    + apply Hcounts.
Defined.

(** The store after the credit of Ali, saved and loaded again. *)
Lemma X14_witness_after_one_credit_reloads :
  load rupee_notes JsonText.parse epoch_millis 0
    (persist JsonText.stringify date_as_number after_one_credit ∅)
  = (after_one_credit,
     persist JsonText.stringify date_as_number after_one_credit ∅, []).
Proof.
  apply (X14_saved_state_loads_as_itself rupee_notes JsonText.parse
           JsonText.stringify epoch_millis 0 date_as_number after_one_credit ∅).
  - compute_done.
  - constructor; [|constructor].
    split_and!; [reflexivity..|apply the_credit_well_formed].
  - apply after_one_credit_vault_well_formed.
  - split; by vm_compute.
  - split; by vm_compute.
Defined.

(** The report of Acme has two rows, with distinct names. *)
Lemma X16_witness_acme_rows :
  exists r,
    reportData (companyTransactions acme_transactions "Acme") = Returns (Some r)
    /\ NoDup (name <$> customers r).
Proof.
  destruct (reportData (companyTransactions acme_transactions "Acme"))
    as [[r|]|] eqn:Hr; [|by vm_compute in Hr..].
  exists r. split; [done|].
  apply (X16_report_rows_are_the_customers _ r Hr).
Defined.

(** A single credit in the name of [constructor] is enough for the
    report to throw. *)
Lemma X17_witness_constructor :
  reportData [credit_of_constructor] = TypeError.
Proof.
  apply (X17_report_throws_on_inherited_names [credit_of_constructor]); [done|].
  exists credit_of_constructor.
  split_and!; [apply list_elem_of_here|done|compute_done].
Defined.

(** The figures of the report of Acme. *)
Lemma X18_witness_acme_figures :
  exists r,
    reportData (companyTransactions acme_transactions "Acme") = Returns (Some r)
    /\ (totalCredit r == sum_Q (total <$> customers r))%Q.
Proof.
  destruct (reportData (companyTransactions acme_transactions "Acme"))
    as [[r|]|] eqn:Hr; [|by vm_compute in Hr..].
  exists r. split; [done|].
  apply (X18_report_figures_add_up _ r Hr).
Defined.
